(** * Video content analyzer: session coordinator and its stage clients

    A shallow embedding of the controller ([analyzeVideo],
    [uploadToSupabase], [cleanup]), of [services/downloader.js],
    [services/transcriber.js], the Whisper client and [services/gpt.js].

    JavaScript strings are sequences of UTF-16 code units, objects parsed
    from JSON are finite maps, and every method is a computation in a
    state-and-exception monad that also records the observable effects it
    performs (writes on the response stream, invocations of the external
    tools and remote services, removals of files).  What the external tools
    and services answer is not decided by the program: it is supplied by an
    environment record, over which every theorem quantifies.  Calls to the
    logger only feed the log sink and are left out. *)

From Stdlib Require Import ZArith QArith List String Ascii DecimalString.
From stdpp Require Import gmap list.
Import ListNotations.

Set Warnings "-register-all".
Local Open Scope Z_scope.

(** ** Strings *)

Module JsString.

(** A string is the list of its UTF-16 code units. *)
Definition jstring : Type := list N.

(** Literals of the source are ASCII. *)
Definition js (s : string) : jstring :=
  List.map N_of_ascii (list_ascii_of_string s).

(** The double quote, for the literals that contain one. *)
Definition dq : jstring := [34%N].

(** Template literal of an integer: its decimal digits, with a minus sign
    when negative. *)
Definition of_Z (z : Z) : jstring :=
  js (NilZero.string_of_int (Z.to_int z)).

(** [WhiteSpace] and [LineTerminator] of ECMAScript, which is what
    [String.prototype.trim] strips.  All of them are single code units. *)
Definition isWhiteSpace (c : N) : bool :=
  match c with
  | 9 | 10 | 11 | 12 | 13 | 32 | 160 | 5760
  | 8192 | 8193 | 8194 | 8195 | 8196 | 8197 | 8198 | 8199 | 8200 | 8201
  | 8202 | 8232 | 8233 | 8239 | 8287 | 12288 | 65279 => true
  | _ => false
  end%N.

Fixpoint trimStart (s : jstring) : jstring :=
  match s with
  | c :: s' => if isWhiteSpace c then trimStart s' else s
  | [] => []
  end.

Definition trimEnd (s : jstring) : jstring := rev (trimStart (rev s)).

Definition trim (s : jstring) : jstring := trimEnd (trimStart s).

(** [s.startsWith(p)] *)
Fixpoint startsWith (s p : jstring) : bool :=
  match p, s with
  | [], _ => true
  | c :: p', d :: s' => N.eqb c d && startsWith s' p'
  | _ :: _, [] => false
  end.

(** [s.substring(0, n)] *)
Definition substring0 (n : nat) (s : jstring) : jstring := firstn n s.

Definition eqb (a b : jstring) : bool := bool_decide (a = b).

End JsString.
Import JsString.

Arguments js s : simpl never.
Arguments of_Z z : simpl never.

(** ** Values parsed from JSON *)

Inductive jsval : Type :=
| JUndefined
| JNull
| JBool (b : bool)
| JNum (q : Q)
| JStr (s : list N)
| JArr (l : list jsval)
| JObj (m : gmap (list N) jsval).

(** Truthiness, as tested by [!v] and [if (v)]. *)
Definition truthy (v : jsval) : bool :=
  match v with
  | JUndefined | JNull => false
  | JBool b => b
  | JNum q => negb (Z.eqb (Qnum q) 0)
  | JStr s => match s with [] => false | _ => true end
  | JArr _ | JObj _ => true
  end.

(** A string-or-null variable under [if (p)]. *)
Definition truthy_path (p : option jstring) : bool :=
  match p with
  | Some (_ :: _) => true
  | _ => false
  end.

(** ** Errors and results *)

Record jserror : Type := mkError { message : jstring }.

Inductive result (A : Type) : Type :=
| Ok (a : A)
| Throw (e : jserror).
Arguments Ok {A} a.
Arguments Throw {A} e.

(** ** Files, events and effects *)

Definition buffer : Type := list Byte.byte.

(** An entry of the temp directory: file name and content. *)
Definition file : Type := (jstring * buffer)%type.

Inductive stage : Type :=
| Download | Upload | Extraction | Transcription | Analysis.

Inductive step : Type :=
| validation | download | upload | extraction | transcription | analysis
| complete | error.

Definition step_of (st : stage) : step :=
  match st with
  | Download => download
  | Upload => upload
  | Extraction => extraction
  | Transcription => transcription
  | Analysis => analysis
  end.

Definition step_name (s : step) : jstring :=
  match s with
  | validation => js "validation"
  | download => js "download"
  | upload => js "upload"
  | extraction => js "extraction"
  | transcription => js "transcription"
  | analysis => js "analysis"
  | complete => js "complete"
  | error => js "error"
  end.

Record metadata : Type := {
  originalUrl : jsval;
  processedAt : jstring;
  steps : list jstring }.

Record finalResult : Type := {
  fr_sessionId : jstring;
  fr_success : bool;
  fr_processingTime : jstring;
  fr_videoUrl : option jstring;
  fr_transcript : jstring;
  fr_analysis : jsval;
  fr_metadata : metadata }.

Record errorResponse : Type := {
  er_sessionId : jstring;
  er_success : bool;
  er_error : jstring;
  er_processingTime : jstring;
  er_timestamp : jstring }.

(** The [data] argument of [sendProgress]. *)
Inductive payload : Type :=
| DNull
| DUrl (url : jsval)
| DPath (path : jstring)
| DTranscript (length : nat) (preview : jstring)
| DAnalysis (a : jsval)
| DResult (r : finalResult)
| DError (e : errorResponse).

Record progressData : Type := {
  pd_sessionId : jstring;
  pd_step : step;
  pd_message : jstring;
  pd_timestamp : jstring;
  pd_data : payload }.

(** The two shapes written on the stream. *)
Inductive event : Type :=
| Progress (p : progressData)
| Final (r : finalResult)
| Error (e : errorResponse).

Record chat_request : Type := {
  rq_model : jstring;
  rq_system : jstring;
  rq_user : jstring;
  rq_max_tokens : Z;
  rq_temperature : Q;
  rq_response_format : jstring }.

(** What is read of a completion: [choices[0].message.content] and
    [usage.total_tokens]. *)
Record completion : Type := {
  content : jstring;
  total_tokens : Z }.

Inductive cleaner : Type := ByDownloader | ByTranscriber.

(** Observable effects, in the order the program performs them:
    [res.writeHead], [res.write] of an event, [res.end]; the entry into a
    stage method ([downloadVideo], [uploadToSupabase], [extractAudio],
    [transcribeAudio], [analyzeContent]); the invocations of yt-dlp, of the
    storage upload, of ffmpeg, of the transcription and of the chat
    completion, with what they are given; the entry into the controller's
    [cleanup] with its two paths, into the [cleanup] of the downloader or
    of the transcriber with its path, and the call of [fs.remove]. *)
Inductive action : Type :=
| AWriteHead
| AWrite (e : event)
| AEnd
| ACall (st : stage)
| AExec (args : list jsval)
| AStorageUpload (bucket name : jstring) (body : buffer)
                 (contentType : jstring) (upsert : bool)
| AFfmpeg (input output : jstring)
| AWhisper (audio : buffer) (model : jstring)
| AChat (r : chat_request)
| ACleanup (videoPath audioPath : option jstring)
| AFileCleanup (by_ : cleaner) (path : jstring)
| ARemove (path : jstring).

(** ** State *)

Record GPTService : Type := {
  model : jstring;
  maxTokens : Z;
  temperature : Q }.

(** [new GPTService()] *)
Definition GPTService_new : GPTService :=
  {| model := js "gpt-4-turbo-preview"; maxTokens := 1000; temperature := 7 # 10 |}.

(** The local variables of [analyzeVideo] that its [finally] block reads. *)
Record Locals : Type := {
  videoPath : option jstring;
  audioPath : option jstring;
  supabaseVideoUrl : option jstring }.

Record State : Type := {
  dir : list file;                 (* the temp directory, in readdir order *)
  bucket : gmap (list N) buffer;   (* the objects of the storage bucket *)
  gpt : GPTService;                (* the controller's GPT client *)
  uuids : nat;                     (* identifiers drawn so far *)
  ticks : nat;                     (* clock readings taken so far *)
  locals : Locals }.

(** ** Environment *)

Record Env : Type := {
  (* process.env.TEMP_DIR and process.env.STORAGE_BUCKET, when set *)
  TEMP_DIR : option jstring;
  STORAGE_BUCKET : option jstring;
  (* the n-th identifier drawn by uuidv4(), the n-th reading of the clock *)
  uuid_nth : nat -> jstring;
  clock : nat -> Z;
  (* Date.prototype.toISOString and path.join *)
  toISOString : Z -> jstring;
  path_join : jstring -> jstring -> jstring;
  (* path.join gives "." for a zero-length result, never the empty string *)
  path_join_nonempty : forall a b, path_join a b <> [];
  (* yt-dlp on its arguments and the temp directory: how it ends, and the
     directory it leaves *)
  ytdlp_exec : list jsval -> list file -> result jstring * list file;
  (* ffmpeg on its input and output paths and the temp directory: whether
     it ends with [end] or [error], and the directory it leaves *)
  ffmpeg_save : jstring -> jstring -> list file -> result unit * list file;
  (* the error with which fs.remove of a path rejects, if it does *)
  fs_remove_error : jstring -> option jserror;
  (* the transcription of an audio stream by a model *)
  whisper_create : buffer -> jstring -> result jstring;
  (* the chat completion of a request, and JSON.parse *)
  chat_create : chat_request -> result completion;
  JSON_parse : jstring -> result jsval;
  (* the message with which the storage service rejects an upload of that
     name for a reason of its own, if it does; the public URL of an object
     of a bucket *)
  storage_reject : jstring -> option jstring;
  publicUrl : jstring -> jstring -> jstring }.

(** ** The monad: state, exceptions, and the effects performed *)

Definition M (A : Type) : Type := State -> result A * State * list action.

Definition ret {A} (a : A) : M A := fun s => (Ok a, s, []).

Definition throw {A} (e : jserror) : M A := fun s => (Throw e, s, []).

Definition bind {A B} (m : M A) (f : A -> M B) : M B :=
  fun s =>
    match m s with
    | (Ok a, s1, t1) =>
        match f a s1 with
        | (r, s2, t2) => (r, s2, t1 ++ t2)
        end
    | (Throw e, s1, t1) => (Throw e, s1, t1)
    end.

Notation "x <- m ;; k" := (bind m (fun x => k))
  (at level 100, m at next level, right associativity).
Notation "m ;;; k" := (bind m (fun _ => k))
  (at level 100, right associativity).

(** [try { m } catch (e) { h e }] *)
Definition try_catch {A} (m : M A) (h : jserror -> M A) : M A :=
  fun s =>
    match m s with
    | (Ok a, s1, t1) => (Ok a, s1, t1)
    | (Throw e, s1, t1) =>
        match h e s1 with
        | (r, s2, t2) => (r, s2, t1 ++ t2)
        end
    end.

(** [try { m } finally { c }]: [c] always runs; an exception of [c]
    replaces the outcome of [m]. *)
Definition try_finally {A} (m : M A) (c : M unit) : M A :=
  fun s =>
    match m s with
    | (r, s1, t1) =>
        match c s1 with
        | (Ok _, s2, t2) => (r, s2, t1 ++ t2)
        | (Throw e, s2, t2) => (Throw e, s2, t1 ++ t2)
        end
    end.

Definition get : M State := fun s => (Ok s, s, []).
Definition emit (a : action) : M unit := fun s => (Ok tt, s, [a]).

Definition when (b : bool) (m : M unit) : M unit := if b then m else ret tt.

(** Projections of an outcome. *)
Definition res_of {A} (o : result A * State * list action) : result A := fst (fst o).
Definition state_of {A} (o : result A * State * list action) : State := snd (fst o).
Definition trace_of {A} (o : result A * State * list action) : list action := snd o.

(** *** State updates *)

Definition set_dir (d : list file) (s : State) : State :=
  {| dir := d; bucket := bucket s; gpt := gpt s; uuids := uuids s;
     ticks := ticks s; locals := locals s |}.

Definition set_bucket (b : gmap (list N) buffer) (s : State) : State :=
  {| dir := dir s; bucket := b; gpt := gpt s; uuids := uuids s;
     ticks := ticks s; locals := locals s |}.

Definition set_gpt (g : GPTService) (s : State) : State :=
  {| dir := dir s; bucket := bucket s; gpt := g; uuids := uuids s;
     ticks := ticks s; locals := locals s |}.

Definition set_locals (l : Locals) (s : State) : State :=
  {| dir := dir s; bucket := bucket s; gpt := gpt s; uuids := uuids s;
     ticks := ticks s; locals := l |}.

Definition modify (f : State -> State) : M unit := fun s => (Ok tt, f s, []).

Section Program.

Variable env : Env.

(** *** Primitives answered by the environment *)

(** [uuidv4()] *)
Definition uuidv4 : M jstring :=
  fun s =>
    (Ok (uuid_nth env (uuids s)),
     {| dir := dir s; bucket := bucket s; gpt := gpt s; uuids := S (uuids s);
        ticks := ticks s; locals := locals s |}, []).

(** [Date.now()], and the instant of [new Date()] *)
Definition Date_now : M Z :=
  fun s =>
    (Ok (clock env (ticks s)),
     {| dir := dir s; bucket := bucket s; gpt := gpt s; uuids := uuids s;
        ticks := S (ticks s); locals := locals s |}, []).

(** [process.env.TEMP_DIR || './temp'] *)
Definition tempDir : jstring :=
  match TEMP_DIR env with
  | Some (c :: d) => c :: d
  | _ => js "./temp"
  end.

(** [process.env.STORAGE_BUCKET || 'content'] *)
Definition bucketName : jstring :=
  match STORAGE_BUCKET env with
  | Some (c :: b) => c :: b
  | _ => js "content"
  end.

(** The path of an entry of the temp directory. *)
Definition path_of (f : file) : jstring := path_join env tempDir (fst f).

Definition at_path (p : jstring) (f : file) : bool := eqb (path_of f) p.

(** [fs.pathExists(p)], which never rejects *)
Definition fs_pathExists (p : jstring) : M bool :=
  fun s => (Ok (existsb (at_path p) (dir s)), s, []).

(** [fs.readFile(p)] *)
Definition fs_readFile (p : jstring) : M buffer :=
  fun s =>
    match find (at_path p) (dir s) with
    | Some f => (Ok (snd f), s, [])
    | None =>
        (Throw (mkError (js "ENOENT: no such file or directory, open '"
                           ++ p ++ js "'")), s, [])
    end.

(** [fs.readdir(tempDir)]; the directory exists since the services ensure
    it when they are built. *)
Definition fs_readdir : M (list jstring) :=
  fun s => (Ok (List.map fst (dir s)), s, []).

(** [fs.remove(p)]: the environment decides whether the removal fails;
    when it does not, no entry is left at [p]. *)
Definition fs_remove (p : jstring) : M unit :=
  fun s =>
    match fs_remove_error env p with
    | Some e => (Throw e, s, [ARemove p])
    | None =>
        (Ok tt, set_dir (List.filter (fun f => negb (at_path p f)) (dir s)) s,
         [ARemove p])
    end.

(** *** services/downloader.js *)

(** The arguments handed to yt-dlp. *)
Definition ytdlp_args (url : jsval) (outputTemplate : jstring) : list jsval :=
  [ url;
    JStr (js "--output"); JStr outputTemplate;
    JStr (js "--format"); JStr (js "best[ext=mp4]/best");
    JStr (js "--no-playlist") ].

(** [this.ytDlp.execPromise(args)]: the tool runs on the temp directory
    and leaves it as the environment says. *)
Definition execPromise (args : list jsval) : M jstring :=
  fun s =>
    match ytdlp_exec env args (dir s) with
    | (r, d) => (r, set_dir d s, [AExec args])
    end.

(** [files.find(file => file.startsWith(videoId))] *)
Definition find_download (videoId : jstring) (files : list jstring) : option jstring :=
  find (fun f => startsWith f videoId) files.

Definition downloadVideo (url : jsval) : M jstring :=
  emit (ACall Download) ;;;
  try_catch
    (videoId <- uuidv4 ;;
     let outputTemplate := path_join env tempDir (videoId ++ js ".%(ext)s") in
     _ <- execPromise (ytdlp_args url outputTemplate) ;;
     files <- fs_readdir ;;
     match find_download videoId files with
     | Some (c :: f) => ret (path_join env tempDir (c :: f))
     | _ => throw (mkError (js "Downloaded file not found"))
     end)
    (fun e => throw (mkError (js "Failed to download video: " ++ message e))).

(** [cleanup(filePath)] of the downloader *)
Definition Downloader_cleanup (filePath : jstring) : M unit :=
  emit (AFileCleanup ByDownloader filePath) ;;;
  try_catch
    (b <- fs_pathExists filePath ;; when b (fs_remove filePath))
    (fun _ => ret tt).

(** *** services/transcriber.js *)

(** [ffmpeg(videoPath) ... .save(audioPath)], settled by its [end] or
    [error] event. *)
Definition ffmpeg_run (input output : jstring) : M unit :=
  fun s =>
    match ffmpeg_save env input output (dir s) with
    | (r, d) => (r, set_dir d s, [AFfmpeg input output])
    end.

Definition extractAudio (videoPath : jstring) : M jstring :=
  emit (ACall Extraction) ;;;
  b <- fs_pathExists videoPath ;;
  if negb b then throw (mkError (js "Video file not found: " ++ videoPath))
  else
    audioId <- uuidv4 ;;
    let audioPath := path_join env tempDir (audioId ++ js ".wav") in
    ffmpeg_run videoPath audioPath ;;;
    ret audioPath.

(** [cleanup(audioPath)] of the transcriber *)
Definition Transcriber_cleanup (audioPath : jstring) : M unit :=
  emit (AFileCleanup ByTranscriber audioPath) ;;;
  try_catch
    (b <- fs_pathExists audioPath ;; when b (fs_remove audioPath))
    (fun _ => ret tt).

(** *** The Whisper client *)

Definition whisper_model : jstring := js "whisper-1".

(** [openai.audio.transcriptions.create(...)] on the stream of the file *)
Definition transcriptions_create (audioPath : jstring) : M jstring :=
  audio <- fs_readFile audioPath ;;
  fun s => (whisper_create env audio whisper_model, s, [AWhisper audio whisper_model]).

Definition transcribeAudio (audioPath : jstring) : M jstring :=
  emit (ACall Transcription) ;;;
  try_catch
    (b <- fs_pathExists audioPath ;;
     if negb b then throw (mkError (js "Audio file not found: " ++ audioPath))
     else transcriptions_create audioPath)
    (fun e => throw e).

(** *** services/gpt.js *)

Definition nl : jstring := [10%N].

Definition quoted (s : string) : jstring := dq ++ js s ++ dq.

(** The template of [createAnalysisPrompt], up to the transcript. *)
Definition prompt_head : jstring :=
  nl ++
  js "Analyze the following video transcript and extract three key marketing elements. Return your response as a JSON object with exactly these three fields:" ++ nl ++
  nl ++
  js "**Instructions:**" ++ nl ++
  js "1. **hook**: Identify the most attention-grabbing opening or compelling moment that would make viewers stop scrolling and watch. This should be the strongest hook from the video content." ++ nl ++
  nl ++
  js "2. **cta**: Extract or infer the main call-to-action. This could be explicit (like " ++
    quoted "subscribe" ++ js ", " ++ quoted "buy now" ++ js ", " ++ quoted "follow me" ++
    js ") or implicit (what action the creator wants viewers to take)." ++ nl ++
  nl ++
  js "3. **usp**: Determine the unique selling proposition or value proposition - what makes this content/creator/product unique or valuable compared to others." ++ nl ++
  nl ++
  js "**Requirements:**" ++ nl ++
  js "- Each field should be a clear, concise string (50-150 characters)" ++ nl ++
  js "- Focus on marketing impact and viewer engagement" ++ nl ++
  js "- If any element is not clearly present, infer the most logical one based on context" ++ nl ++
  js "- Return valid JSON format only" ++ nl ++
  nl ++
  js "**Video Transcript:**" ++ nl.

(** The template of [createAnalysisPrompt], after the transcript. *)
Definition prompt_tail : jstring :=
  nl ++
  nl ++
  js "**Response Format:**" ++ nl ++
  js "{" ++ nl ++
  js "  " ++ quoted "hook" ++ js ": " ++ quoted "Your identified hook here" ++ js "," ++ nl ++
  js "  " ++ quoted "cta" ++ js ": " ++ quoted "Your identified call-to-action here" ++ js ", " ++ nl ++
  js "  " ++ quoted "usp" ++ js ": " ++ quoted "Your identified unique selling proposition here" ++ nl ++
  js "}" ++ nl.

Definition createAnalysisPrompt (transcript : jstring) : jstring :=
  prompt_head ++ transcript ++ prompt_tail.

Definition system_message : jstring :=
  js "You are an expert content analyst specializing in social media video content. Your task is to analyze video transcripts and extract key marketing elements.".

(** [analysis[field]] for the fields looked up here: reading a property
    of [null] or [undefined] throws a TypeError; an object parsed from
    JSON has the properties of its map; numbers, booleans, strings and
    arrays have no property of these names. *)
Definition get_field (analysis : jsval) (field : jstring) : result jsval :=
  match analysis with
  | JUndefined =>
      Throw (mkError (js "Cannot read properties of undefined (reading '"
                        ++ field ++ js "')"))
  | JNull =>
      Throw (mkError (js "Cannot read properties of null (reading '"
                        ++ field ++ js "')"))
  | JObj m => Ok (default JUndefined (m !! field))
  | _ => Ok JUndefined
  end.

Definition requiredFields : list jstring := [js "hook"; js "cta"; js "usp"].

(** [typeof v === 'string'] *)
Definition is_string (v : jsval) : bool :=
  match v with JStr _ => true | _ => false end.

(** The code units of a value known to be a string. *)
Definition string_of (v : jsval) : jstring :=
  match v with JStr s => s | _ => [] end.

(** The body of the loop of [validateAnalysisResponse], for one field. *)
Definition validate_field (analysis : jsval) (field : jstring) : result unit :=
  match get_field analysis field with
  | Throw e => Throw e
  | Ok v =>
      if negb (truthy v) || negb (is_string v) then
        Throw (mkError (js "Invalid analysis response: missing or invalid '"
                          ++ field ++ js "' field"))
      else if (List.length (trim (string_of v)) =? 0)%nat then
        Throw (mkError (js "Invalid analysis response: '"
                          ++ field ++ js "' field is empty"))
      else Ok tt
  end.

Fixpoint validate_fields (analysis : jsval) (fields : list jstring) : result unit :=
  match fields with
  | [] => Ok tt
  | field :: rest =>
      match validate_field analysis field with
      | Throw e => Throw e
      | Ok _ => validate_fields analysis rest
      end
  end.

Definition validateAnalysisResponse (analysis : jsval) : result unit :=
  validate_fields analysis requiredFields.

Definition lift {A} (r : result A) : M A := fun s => (r, s, []).

(** The request built from the fields of [this]. *)
Definition chat_request_of (g : GPTService) (prompt : jstring) : chat_request :=
  {| rq_model := model g;
     rq_system := system_message;
     rq_user := prompt;
     rq_max_tokens := maxTokens g;
     rq_temperature := temperature g;
     rq_response_format := js "json_object" |}.

(** [openai.chat.completions.create(...)] *)
Definition completions_create (r : chat_request) : M completion :=
  fun s => (chat_create env r, s, [AChat r]).

Definition analyzeContent (transcript : jstring) : M jsval :=
  emit (ACall Analysis) ;;;
  try_catch
    (let prompt := createAnalysisPrompt transcript in
     s <- get ;;
     completion <- completions_create (chat_request_of (gpt s) prompt) ;;
     let response := content completion in
     analysis <- lift (JSON_parse env response) ;;
     lift (validateAnalysisResponse analysis) ;;;
     ret analysis)
    (fun e => throw e).

(** [this.temperature = t] *)
Definition set_temperature (t : Q) : M unit :=
  modify (fun s =>
    set_gpt {| model := model (gpt s); maxTokens := maxTokens (gpt s);
               temperature := t |} s).

(** [generateAlternativeAnalysis(transcript, temperature = 1.2)]; the
    argument is [None] when the caller leaves it out. *)
Definition generateAlternativeAnalysis (transcript : jstring) (temp : option Q) : M jsval :=
  let temperature_ := match temp with Some t => t | None => 12 # 10 end in
  s <- get ;;
  let originalTemp := temperature (gpt s) in
  set_temperature temperature_ ;;;
  try_finally
    (result_ <- analyzeContent transcript ;; ret result_)
    (set_temperature originalTemp).

(** *** The controller *)

(** [supabase.storage.from(bucketName).upload(name, body, options)], which
    answers with an error or none.  The remote side may reject the request
    for reasons of its own; otherwise the storage service refuses an upload
    with [upsert: false] to a name that is taken, and stores the object in
    the other cases. *)
Definition storage_upload (name : jstring) (body : buffer)
    (contentType : jstring) (upsert : bool) : M (option jstring) :=
  fun s =>
    let a := AStorageUpload bucketName name body contentType upsert in
    match storage_reject env name with
    | Some msg => (Ok (Some msg), s, [a])
    | None =>
        match bucket s !! name with
        | Some _ =>
            if upsert then (Ok None, set_bucket (<[name := body]> (bucket s)) s, [a])
            else (Ok (Some (js "The resource already exists")), s, [a])
        | None => (Ok None, set_bucket (<[name := body]> (bucket s)) s, [a])
        end
    end.

Definition uploadToSupabase (videoPath_ sessionId : jstring) : M jstring :=
  emit (ACall Upload) ;;;
  try_catch
    (videoBuffer <- fs_readFile videoPath_ ;;
     now <- Date_now ;;
     let fileName := sessionId ++ js "_" ++ of_Z now ++ js ".mp4" in
     err <- storage_upload fileName videoBuffer (js "video/mp4") false ;;
     match err with
     | Some msg => throw (mkError (js "Supabase upload failed: " ++ msg))
     | None => ret (publicUrl env bucketName fileName)
     end)
    (fun e => throw e).

(** [cleanup(videoPath, audioPath, sessionId)] *)
Definition cleanup (videoPath_ audioPath_ : option jstring) : M unit :=
  emit (ACleanup videoPath_ audioPath_) ;;;
  try_catch
    (match videoPath_ with
     | Some (c :: p) => Downloader_cleanup (c :: p)
     | _ => ret tt
     end ;;;
     match audioPath_ with
     | Some (c :: p) => Transcriber_cleanup (c :: p)
     | _ => ret tt
     end)
    (fun _ => ret tt).

(** The closure [sendProgress] of a session. *)
Definition sendProgress (sessionId : jstring) (st : step) (msg : string)
    (data : payload) : M unit :=
  now <- Date_now ;;
  emit (AWrite (Progress {| pd_sessionId := sessionId;
                            pd_step := st;
                            pd_message := js msg;
                            pd_timestamp := toISOString env now;
                            pd_data := data |})).

Definition set_videoPath (p : jstring) : M unit :=
  modify (fun s => set_locals {| videoPath := Some p;
                                 audioPath := audioPath (locals s);
                                 supabaseVideoUrl := supabaseVideoUrl (locals s) |} s).

Definition set_supabaseVideoUrl (u : jstring) : M unit :=
  modify (fun s => set_locals {| videoPath := videoPath (locals s);
                                 audioPath := audioPath (locals s);
                                 supabaseVideoUrl := Some u |} s).

Definition set_audioPath (p : jstring) : M unit :=
  modify (fun s => set_locals {| videoPath := videoPath (locals s);
                                 audioPath := Some p;
                                 supabaseVideoUrl := supabaseVideoUrl (locals s) |} s).

Definition ms (z : Z) : jstring := of_Z z ++ js "ms".

Definition stage_names : list jstring :=
  [js "download"; js "upload"; js "extraction"; js "transcription"; js "analysis"].

(** The [try] block of [analyzeVideo]. *)
Definition try_block (url : jsval) (sessionId : jstring) (startTime : Z) : M unit :=
  if negb (truthy url) then throw (mkError (js "Video URL is required"))
  else
    sendProgress sessionId validation "Validating video URL" (DUrl url) ;;;
    (* Step 1 *)
    sendProgress sessionId download "Starting video download..." DNull ;;;
    vp <- downloadVideo url ;;
    set_videoPath vp ;;;
    sendProgress sessionId download "Video downloaded successfully" (DPath vp) ;;;
    (* Step 2 *)
    sendProgress sessionId upload "Uploading video to Supabase storage..." DNull ;;;
    u <- uploadToSupabase vp sessionId ;;
    set_supabaseVideoUrl u ;;;
    sendProgress sessionId upload "Video uploaded to Supabase" (DUrl (JStr u)) ;;;
    (* Step 3 *)
    sendProgress sessionId extraction "Extracting audio from video..." DNull ;;;
    ap <- extractAudio vp ;;
    set_audioPath ap ;;;
    sendProgress sessionId extraction "Audio extracted successfully" (DPath ap) ;;;
    (* Step 4 *)
    sendProgress sessionId transcription "Transcribing audio with OpenAI Whisper..." DNull ;;;
    transcript <- transcribeAudio ap ;;
    sendProgress sessionId transcription "Audio transcribed successfully"
      (DTranscript (List.length transcript) (substring0 100 transcript ++ js "...")) ;;;
    (* Step 5 *)
    sendProgress sessionId analysis "Analyzing content with GPT-4..." DNull ;;;
    analysis_ <- analyzeContent transcript ;;
    sendProgress sessionId analysis "Content analysis completed" (DAnalysis analysis_) ;;;
    (* Step 6 *)
    now <- Date_now ;;
    let processingTime := now - startTime in
    processed <- Date_now ;;
    let finalResult_ :=
      {| fr_sessionId := sessionId;
         fr_success := true;
         fr_processingTime := ms processingTime;
         fr_videoUrl := Some u;
         fr_transcript := transcript;
         fr_analysis := analysis_;
         fr_metadata := {| originalUrl := url;
                           processedAt := toISOString env processed;
                           steps := stage_names |} |} in
    sendProgress sessionId complete "Video analysis completed successfully"
      (DResult finalResult_) ;;;
    emit (AWrite (Final finalResult_)) ;;;
    emit AEnd.

(** The [catch] block of [analyzeVideo]. *)
Definition catch_block (sessionId : jstring) (startTime : Z) (e : jserror) : M unit :=
  now <- Date_now ;;
  stamp <- Date_now ;;
  let errorResponse_ :=
    {| er_sessionId := sessionId;
       er_success := false;
       er_error := message e;
       er_processingTime := ms (now - startTime);
       er_timestamp := toISOString env stamp |} in
  sendProgress sessionId error "Analysis failed" (DError errorResponse_) ;;;
  emit (AWrite (Error errorResponse_)) ;;;
  emit AEnd.

(** The [finally] block of [analyzeVideo]. *)
Definition finally_block : M unit :=
  s <- get ;;
  cleanup (videoPath (locals s)) (audioPath (locals s)).

(** [analyzeVideo(req, res)], for [req.body.url = url]. *)
Definition analyzeVideo (url : jsval) : M unit :=
  startTime <- Date_now ;;
  sessionId <- uuidv4 ;;
  emit AWriteHead ;;;
  modify (set_locals {| videoPath := None; audioPath := None;
                        supabaseVideoUrl := None |}) ;;;
  try_finally
    (try_catch (try_block url sessionId startTime)
               (catch_block sessionId startTime))
    finally_block.

End Program.

(** ** Concrete environments, for the examples *)

Module Demo.

Definition join (a b : jstring) : jstring := a ++ js "/" ++ b.

Definition join_nonempty (a b : jstring) : join a b <> [].
Proof. unfold join. destruct a; discriminate. Defined.

Definition goodAnalysis : jsval :=
  JObj (<[js "hook" := JStr (js "Stop scrolling")]>
        (<[js "cta" := JStr (js "Subscribe")]>
         (<[js "usp" := JStr (js "Only here")]>
          (<[js "score" := JNum (9 # 1)]> ∅)))).

Definition noCta : jsval :=
  JObj (<[js "hook" := JStr (js "Stop scrolling")]>
        (<[js "usp" := JStr (js "Only here")]> ∅)).

Definition blankUsp : jsval :=
  JObj (<[js "hook" := JStr (js "Stop scrolling")]>
        (<[js "cta" := JStr (js "Subscribe")]>
         (<[js "usp" := JStr [32; 9; 160]%N]> ∅))).

Definition video : buffer := [Byte.x00; Byte.x01].
Definition wav : buffer := [Byte.x52].

(** An environment in which yt-dlp ends as [dl] says, writing [id1.mp4]
    when it succeeds; ffmpeg writes [id2.wav] and ends as [ff] says;
    removals fail as [rm] says; the chat completion is [chat] and its
    content parses to [parsed]. *)
Definition env (dl : result jstring) (ff : result unit)
    (rm : jstring -> option jserror)
    (chat : result completion) (parsed : result jsval) : Env :=
  {| TEMP_DIR := None;
     STORAGE_BUCKET := None;
     uuid_nth := fun n => js "id" ++ of_Z (Z.of_nat n);
     clock := fun n => 1000 + 10 * Z.of_nat n;
     toISOString := of_Z;
     path_join := join;
     path_join_nonempty := join_nonempty;
     ytdlp_exec := fun _ d =>
       (dl, match dl with Ok _ => d ++ [(js "id1.mp4", video)] | Throw _ => d end);
     ffmpeg_save := fun _ _ d => (ff, d ++ [(js "id2.wav", wav)]);
     fs_remove_error := rm;
     whisper_create := fun _ _ => Ok (js "hello world");
     chat_create := fun _ => chat;
     JSON_parse := fun _ => parsed;
     storage_reject := fun _ => None;
     publicUrl := fun b n => js "https://storage.example/" ++ b ++ js "/" ++ n |}.

Definition answer : completion :=
  {| content := js "{...}"; total_tokens := 120 |}.

Definition ffmpegError : jserror := mkError (js "ffmpeg exited with code 1").

Definition eperm : jserror := mkError (js "EPERM: operation not permitted, unlink").

Definition unsupported : jserror := mkError (js "ERROR: Unsupported URL").

(** Everything succeeds; the analysis has a fourth field. *)
Definition happy : Env :=
  env (Ok []) (Ok tt) (fun _ => None) (Ok answer) (Ok goodAnalysis).

(** ffmpeg fails after it has written its output file. *)
Definition ffail : Env :=
  env (Ok []) (Throw ffmpegError) (fun _ => None) (Ok answer) (Ok goodAnalysis).

(** The same, and no file can be removed. *)
Definition leaky : Env :=
  env (Ok []) (Throw ffmpegError) (fun _ => Some eperm) (Ok answer) (Ok goodAnalysis).

(** The model answers without a [cta]. *)
Definition incomplete : Env :=
  env (Ok []) (Ok tt) (fun _ => None) (Ok answer) (Ok noCta).

(** yt-dlp fails. *)
Definition dlfail : Env :=
  env (Throw unsupported) (Ok tt) (fun _ => None) (Ok answer) (Ok goodAnalysis).

Definition s0 : State :=
  {| dir := []; bucket := ∅; gpt := GPTService_new; uuids := 0; ticks := 0;
     locals := {| videoPath := None; audioPath := None; supabaseVideoUrl := None |} |}.

(** A downloaded clip, and a bucket that already holds the object name
    the next upload of session [sess] will choose. *)
Definition s_taken : State :=
  {| dir := [(js "clip.mp4", video)];
     bucket := {[ js "sess_1000.mp4" := wav ]};
     gpt := GPTService_new; uuids := 0; ticks := 0;
     locals := {| videoPath := None; audioPath := None; supabaseVideoUrl := None |} |}.

Definition url : jsval := JStr (js "https://youtu.be/abc123").

Definition rateLimit : jserror := mkError (js "429 Rate limit reached").

(** The chat completion is refused. *)
Definition limited : Env :=
  env (Ok []) (Ok tt) (fun _ => None) (Throw rateLimit) (Ok goodAnalysis).

(** A serialiser that writes no line feed: the step of a progress event,
    the type of a terminal one. *)
Definition stringify (e : event) : jstring :=
  match e with
  | Progress p => js "{step:" ++ step_name (pd_step p) ++ js "}"
  | Final _ => js "{type:final}"
  | Error _ => js "{type:error}"
  end.

End Demo.

(** ** Reading a trace *)

(** The events written on the response stream, in order. *)
Fixpoint written (t : list action) : list event :=
  match t with
  | AWrite e :: t' => e :: written t'
  | _ :: t' => written t'
  | [] => []
  end.

Definition is_terminal (e : event) : bool :=
  match e with
  | Progress _ => false
  | Final _ | Error _ => true
  end.

Definition terminal_count (l : list event) : nat :=
  List.length (List.filter is_terminal l).

(** The stage methods entered, in order. *)
Fixpoint calls (t : list action) : list stage :=
  match t with
  | ACall st :: t' => st :: calls t'
  | _ :: t' => calls t'
  | [] => []
  end.

(** The file cleanups started, in order. *)
Fixpoint file_cleanups (t : list action) : list (cleaner * jstring) :=
  match t with
  | AFileCleanup c p :: t' => (c, p) :: file_cleanups t'
  | _ :: t' => file_cleanups t'
  | [] => []
  end.

(** The number of times the controller's [cleanup] was entered. *)
Fixpoint cleanup_count (t : list action) : nat :=
  match t with
  | ACleanup _ _ :: t' => S (cleanup_count t')
  | _ :: t' => cleanup_count t'
  | [] => 0%nat
  end.

(** The requests sent to the chat completion service, in order. *)
Fixpoint chats (t : list action) : list chat_request :=
  match t with
  | AChat r :: t' => r :: chats t'
  | _ :: t' => chats t'
  | [] => []
  end.

(** The results sent in terminal [final] events, in order. *)
Fixpoint finals (t : list action) : list finalResult :=
  match t with
  | AWrite (Final r) :: t' => r :: finals t'
  | _ :: t' => finals t'
  | [] => []
  end.

Inductive payload_kind : Type :=
| KNull | KUrl | KPath | KTranscript | KAnalysis | KResult | KError.

Definition kind_of (d : payload) : payload_kind :=
  match d with
  | DNull => KNull
  | DUrl _ => KUrl
  | DPath _ => KPath
  | DTranscript _ _ => KTranscript
  | DAnalysis _ => KAnalysis
  | DResult _ => KResult
  | DError _ => KError
  end.

(** What the coordinator itself does, without the values it carries; the
    invocations made inside a stage are left to the stage. *)
Inductive mark : Type :=
| MHead
| MProgress (s : step) (k : payload_kind)
| MFinal
| MError
| MEnd
| MCall (st : stage)
| MCleanup
| MFileCleanup (by_ : cleaner).

Definition mark_of (a : action) : option mark :=
  match a with
  | AWriteHead => Some MHead
  | AWrite (Progress p) => Some (MProgress (pd_step p) (kind_of (pd_data p)))
  | AWrite (Final _) => Some MFinal
  | AWrite (Error _) => Some MError
  | AEnd => Some MEnd
  | ACall st => Some (MCall st)
  | ACleanup _ _ => Some MCleanup
  | AFileCleanup by_ _ => Some (MFileCleanup by_)
  | _ => None
  end.

Fixpoint marks (t : list action) : list mark :=
  match t with
  | a :: t' =>
      match mark_of a with
      | Some m => m :: marks t'
      | None => marks t'
      end
  | [] => []
  end.

(** ** The course of a session, as the specification words it *)

Definition stage_order : list stage :=
  [Download; Upload; Extraction; Transcription; Analysis].

(** How a session went: rejected for its URL, aborted at a stage, or
    completed. *)
Inductive course : Type :=
| Rejected
| FailedAt (st : stage)
| Completed.

(** The stages that precede [st]. *)
Definition before (st : stage) : list stage :=
  match st with
  | Download => []
  | Upload => [Download]
  | Extraction => [Download; Upload]
  | Transcription => [Download; Upload; Extraction]
  | Analysis => [Download; Upload; Extraction; Transcription]
  end.

(** The summary data a stage reports when it succeeds. *)
Definition summary_kind (st : stage) : payload_kind :=
  match st with
  | Download => KPath
  | Upload => KUrl
  | Extraction => KPath
  | Transcription => KTranscript
  | Analysis => KAnalysis
  end.

(** A stage that succeeds: announced, run, reported. *)
Definition stage_done (st : stage) : list mark :=
  [MProgress (step_of st) KNull; MCall st; MProgress (step_of st) (summary_kind st)].

(** A stage that fails: announced and run. *)
Definition stage_failed (st : stage) : list mark :=
  [MProgress (step_of st) KNull; MCall st].

(** Whether the session got to record its video file, its audio file. *)
Definition video_recorded (c : course) : bool :=
  match c with
  | Rejected | FailedAt Download => false
  | _ => true
  end.

Definition audio_recorded (c : course) : bool :=
  match c with
  | FailedAt Transcription | FailedAt Analysis | Completed => true
  | _ => false
  end.

(** The end of a session that fails: the error progress event, the terminal
    error event, the end of the stream. *)
Definition error_end : list mark :=
  [MProgress error KError; MError; MEnd].

(** Cleanup: entered once, then one file cleanup for each recorded file. *)
Definition cleanup_marks (c : course) : list mark :=
  MCleanup ::
    (if video_recorded c then [MFileCleanup ByDownloader] else []) ++
    (if audio_recorded c then [MFileCleanup ByTranscriber] else []).

Definition session_marks (c : course) : list mark :=
  match c with
  | Rejected => MHead :: error_end ++ cleanup_marks c
  | FailedAt st =>
      MHead :: MProgress validation KUrl ::
        flat_map stage_done (before st) ++ stage_failed st ++
        error_end ++ cleanup_marks c
  | Completed =>
      MHead :: MProgress validation KUrl ::
        flat_map stage_done stage_order ++
        [MProgress complete KResult; MFinal; MEnd] ++ cleanup_marks c
  end.

(** The stages a session enters. *)
Definition stages_run (c : course) : list stage :=
  match c with
  | Rejected => []
  | FailedAt st => before st ++ [st]
  | Completed => stage_order
  end.

(** ** The session as [analyzeVideo] sets it up *)

Definition startTime_of (env : Env) (s : State) : Z := clock env (ticks s).

Definition sessionId_of (env : Env) (s : State) : jstring := uuid_nth env (uuids s).

Definition no_locals : Locals :=
  {| videoPath := None; audioPath := None; supabaseVideoUrl := None |}.

(** The state in which the [try] block starts. *)
Definition session_state (s : State) : State :=
  {| dir := dir s; bucket := bucket s; gpt := gpt s; uuids := S (uuids s);
     ticks := S (ticks s); locals := no_locals |}.

(** The run of the [try] block of the session started in [s]. *)
Definition attempt (env : Env) (url : jsval) (s : State) :
    result unit * State * list action :=
  try_block env url (sessionId_of env s) (startTime_of env s) (session_state s).

(** A field of the analysis that is present, a string, and not empty after
    trimming. *)
Definition field_present (v : jsval) (k : jstring) : Prop :=
  exists m str, v = JObj m /\ m !! k = Some (JStr str) /\ trim str <> [].

(** ** Reading marks *)

Definition mark_is_write (m : mark) : bool :=
  match m with
  | MProgress _ _ | MFinal | MError => true
  | _ => false
  end.

Definition mark_is_terminal (m : mark) : bool :=
  match m with
  | MFinal | MError => true
  | _ => false
  end.

Definition event_mark (e : event) : mark :=
  match e with
  | Progress p => MProgress (pd_step p) (kind_of (pd_data p))
  | Final _ => MFinal
  | Error _ => MError
  end.

Fixpoint calls_of_marks (l : list mark) : list stage :=
  match l with
  | MCall st :: l' => st :: calls_of_marks l'
  | _ :: l' => calls_of_marks l'
  | [] => []
  end.

Fixpoint cleaners_of_marks (l : list mark) : list cleaner :=
  match l with
  | MFileCleanup c :: l' => c :: cleaners_of_marks l'
  | _ :: l' => cleaners_of_marks l'
  | [] => []
  end.

Definition count_cleanup_marks (l : list mark) : nat :=
  List.length (List.filter (fun m => match m with MCleanup => true | _ => false end) l).

(** ** What the cleanups do to the temp directory *)

(** The directory without the entries at path [p]. *)
Definition without (env : Env) (p : jstring) (d : list file) : list file :=
  List.filter (fun f => negb (at_path env p f)) d.

(** The state after a file cleanup of [p]: the entries at [p] are gone when
    there were some and the removal did not fail. *)
Definition after_file_cleanup (env : Env) (p : jstring) (s : State) : State :=
  if existsb (at_path env p) (dir s) then
    match fs_remove_error env p with
    | Some _ => s
    | None => set_dir (without env p (dir s)) s
    end
  else s.

Definition removal_trace (env : Env) (p : jstring) (s : State) : list action :=
  if existsb (at_path env p) (dir s) then [ARemove p] else [].

(** The same for a path variable of the session, skipped when it is null
    or empty. *)
Definition cleaned (env : Env) (p : option jstring) (s : State) : State :=
  match p with
  | Some (c :: q) => after_file_cleanup env (c :: q) s
  | _ => s
  end.

Definition cleaning (env : Env) (by_ : cleaner) (p : option jstring) (s : State) :
    list action :=
  match p with
  | Some (c :: q) => AFileCleanup by_ (c :: q) :: removal_trace env (c :: q) s
  | _ => []
  end.

(** The marks of the [try] block of a session. *)
Definition try_marks (c : course) : list mark :=
  match c with
  | Rejected => []
  | FailedAt st =>
      MProgress validation KUrl :: flat_map stage_done (before st) ++ stage_failed st
  | Completed =>
      MProgress validation KUrl ::
        flat_map stage_done stage_order ++ [MProgress complete KResult; MFinal; MEnd]
  end.

(** The marks of its [catch] block. *)
Definition catch_marks (c : course) : list mark :=
  match c with
  | Completed => []
  | _ => [MProgress error KError; MError; MEnd]
  end.

(** What a stage method is to the coordinator: one entry, no write on the
    stream, and the session's variables left alone. *)
Definition stage_frame {A} (st : stage) (m : M A) : Prop :=
  forall s, marks (trace_of (m s)) = [MCall st] /\ locals (state_of (m s)) = locals s.

(** The state after one more clock reading. *)
Definition tick (s : State) : State :=
  {| dir := dir s; bucket := bucket s; gpt := gpt s; uuids := uuids s;
     ticks := S (ticks s); locals := locals s |}.

(** What the [catch] block writes for the exception [e], from state [s]. *)
Definition errorResponse_of (env : Env) (sessionId : jstring) (startTime : Z)
    (e : jserror) (s : State) : errorResponse :=
  {| er_sessionId := sessionId;
     er_success := false;
     er_error := message e;
     er_processingTime := ms (clock env (ticks s) - startTime);
     er_timestamp := toISOString env (clock env (S (ticks s))) |}.

Definition error_progress (env : Env) (sessionId : jstring) (startTime : Z)
    (e : jserror) (s : State) : progressData :=
  {| pd_sessionId := sessionId;
     pd_step := error;
     pd_message := js "Analysis failed";
     pd_timestamp := toISOString env (clock env (S (S (ticks s))));
     pd_data := DError (errorResponse_of env sessionId startTime e s) |}.

(** The run of the [catch] block of a session, when its [try] block threw. *)
Definition handled (env : Env) (sessionId : jstring) (startTime : Z)
    (a : result unit * State * list action) : result unit * State * list action :=
  match res_of a with
  | Ok _ => (Ok tt, state_of a, [])
  | Throw e => catch_block env sessionId startTime e (state_of a)
  end.

(** What the run of a [try] block shows of the course [c] of its session. *)
Definition follows (env : Env) (url : jsval) (c : course)
    (a : result unit * State * list action) : Prop :=
  (c = Rejected <-> truthy url = false) /\
  (c = Completed <-> res_of a = Ok tt) /\
  marks (trace_of a) = try_marks c /\
  match videoPath (locals (state_of a)) with
  | Some p => video_recorded c = true /\ p <> []
  | None => video_recorded c = false
  end /\
  match audioPath (locals (state_of a)) with
  | Some p => audio_recorded c = true /\ p <> []
  | None => audio_recorded c = false
  end /\
  (forall fr, In fr (finals (trace_of a)) ->
     exists transcript s', res_of (analyzeContent env transcript s') = Ok (fr_analysis fr)).

(** ** The stages of a session, as the specification words them *)

(** The progress event a session [sid] writes from state [s]. *)
Definition progress_event (env : Env) (sid : jstring) (st : step) (msg : string)
    (d : payload) (s : State) : action :=
  AWrite (Progress {| pd_sessionId := sid; pd_step := st; pd_message := js msg;
                      pd_timestamp := toISOString env (clock env (ticks s));
                      pd_data := d |}).

(** The session's variables once a stage has returned. *)
Definition record_video (p : jstring) (s : State) : State :=
  set_locals {| videoPath := Some p;
                audioPath := audioPath (locals s);
                supabaseVideoUrl := supabaseVideoUrl (locals s) |} s.

Definition record_url (u : jstring) (s : State) : State :=
  set_locals {| videoPath := videoPath (locals s);
                audioPath := audioPath (locals s);
                supabaseVideoUrl := Some u |} s.

Definition record_audio (p : jstring) (s : State) : State :=
  set_locals {| videoPath := videoPath (locals s);
                audioPath := Some p;
                supabaseVideoUrl := supabaseVideoUrl (locals s) |} s.

Definition record_nothing {A} (_ : A) (s : State) : State := s.

(** The summary of a transcript: its length and its first hundred code
    units. *)
Definition transcript_summary (transcript : jstring) : payload :=
  DTranscript (List.length transcript) (substring0 100 transcript ++ js "...").

(** One stage [st] of a session of course [c], in what is left of its run
    from state [s]: a run that ends in the result [r] and the state [sf]
    and does [t].  The stage is announced by a progress event, then its
    method is entered.  When the method throws, the run ends there, with
    that exception, and the session has failed at [st].  When it returns
    [v], the value is recorded, a progress event reports its summary, and
    the run goes on as [next v] says. *)
Definition staged {A} (env : Env) (sid : jstring) (c : course) (st : stage)
    (announce report : string) (method : M A)
    (record : A -> State -> State) (summary : A -> payload)
    (next : A -> State -> result unit -> State -> list action -> Prop)
    (s : State) (r : result unit) (sf : State) (t : list action) : Prop :=
  let o := method (tick s) in
  match res_of o with
  | Throw e =>
      c = FailedAt st /\ r = Throw e /\ sf = state_of o /\
      t = progress_event env sid (step_of st) announce DNull s :: trace_of o
  | Ok v =>
      let s1 := record v (state_of o) in
      exists rest,
        t = progress_event env sid (step_of st) announce DNull s :: trace_of o ++
            progress_event env sid (step_of st) report (summary v) s1 :: rest /\
        next v (tick s1) r sf rest
  end.

(** The end of a session whose five stages have returned: the [complete]
    progress event and the terminal event carry one result, made of what
    the stages returned. *)
Definition finished (env : Env) (sid : jstring) (c : course)
    (u transcript : jstring) (analysis_ : jsval)
    (s : State) (r : result unit) (sf : State) (t : list action) : Prop :=
  c = Completed /\ r = Ok tt /\
  exists fr,
    fr_videoUrl fr = Some u /\ fr_transcript fr = transcript /\
    fr_analysis fr = analysis_ /\
    t = [progress_event env sid complete "Video analysis completed successfully"
           (DResult fr) (tick (tick s));
         AWrite (Final fr); AEnd].

(** The run of a session whose URL is accepted: the validation event, then
    the five stages in order, each one entered with what the stages before
    it returned. *)
Definition pipeline (env : Env) (url : jsval) (sid : jstring) (c : course)
    (s : State) (r : result unit) (sf : State) (t : list action) : Prop :=
  exists rest,
    t = progress_event env sid validation "Validating video URL" (DUrl url) s :: rest /\
    staged env sid c Download
      "Starting video download..." "Video downloaded successfully"
      (downloadVideo env url) record_video DPath
      (fun vp =>
       staged env sid c Upload
         "Uploading video to Supabase storage..." "Video uploaded to Supabase"
         (uploadToSupabase env vp sid) record_url (fun u => DUrl (JStr u))
         (fun u =>
          staged env sid c Extraction
            "Extracting audio from video..." "Audio extracted successfully"
            (extractAudio env vp) record_audio DPath
            (fun ap =>
             staged env sid c Transcription
               "Transcribing audio with OpenAI Whisper..."
               "Audio transcribed successfully"
               (transcribeAudio env ap) record_nothing transcript_summary
               (fun transcript =>
                staged env sid c Analysis
                  "Analyzing content with GPT-4..." "Content analysis completed"
                  (analyzeContent env transcript) record_nothing DAnalysis
                  (fun analysis_ => finished env sid c u transcript analysis_)))))
      (tick s) r sf rest.

(** ** Postconditions *)

(** [wp m s Q]: the run of [m] from [s] ends in a result, a state and a
    trace that satisfy [Q]. *)
Definition wp {A} (m : M A) (s : State)
    (Q : result A -> State -> list action -> Prop) : Prop :=
  Q (res_of (m s)) (state_of (m s)) (trace_of (m s)).

(** A list of write marks that ends with its only terminal one. *)
Definition closes (l : list mark) : bool :=
  match rev l with
  | m :: pre =>
      mark_is_terminal m && forallb (fun x => negb (mark_is_terminal x)) pre
  | [] => false
  end.

(** ** Defects of a field of the analysis, as the specification lists them *)

Inductive field_defect (v : jsval) (k : jstring) : Prop :=
| field_missing :
    get_field v k = Ok JUndefined -> field_defect v k
| field_not_string (x : jsval) :
    get_field v k = Ok x -> is_string x = false -> field_defect v k
| field_blank (str : jstring) :
    get_field v k = Ok (JStr str) -> trim str = [] -> field_defect v k.

(** ** No temp file left *)

(** Once a session has been cleaned up, none of its temp files is left:
    every entry of the temp directory was there before the session. *)
Definition no_temp_file_left (env : Env) (url : jsval) (s : State) : Prop :=
  forall f, In f (dir (state_of (analyzeVideo env url s))) -> In f (dir s).

(** * The rest of the services *)

(** ** More readers of a trace *)

(** The paths handed to [fs.remove], in order. *)
Fixpoint removals (t : list action) : list jstring :=
  match t with
  | ARemove p :: t' => p :: removals t'
  | _ :: t' => removals t'
  | [] => []
  end.

(** The session identifier an event carries. *)
Definition event_sessionId (e : event) : jstring :=
  match e with
  | Progress p => pd_sessionId p
  | Final r => fr_sessionId r
  | Error er => er_sessionId er
  end.

(** The session identifier inside the data of a progress event, when its
    data is a result or an error response. *)
Definition payload_sessionId (d : payload) : option jstring :=
  match d with
  | DResult r => Some (fr_sessionId r)
  | DError er => Some (er_sessionId er)
  | _ => None
  end.

(** An event of the session [sid], inside and out. *)
Definition of_session (sid : jstring) (e : event) : Prop :=
  event_sessionId e = sid /\
  match e with
  | Progress p =>
      match payload_sessionId (pd_data p) with
      | Some x => x = sid
      | None => True
      end
  | _ => True
  end.

(** The results carried by the [complete] progress events, in order. *)
Definition completes (t : list action) : list finalResult :=
  flat_map (fun e =>
              match e with
              | Progress p =>
                  match pd_step p, pd_data p with
                  | complete, DResult r => [r]
                  | _, _ => []
                  end
              | _ => []
              end) (written t).

(** What a result envelope says of the session that built it: the session
    and its URL, success, the five stage names, the time elapsed at some
    reading of the clock, the URL an upload returned and the text a
    transcription returned. *)
Definition envelope_of (env : Env) (url : jsval) (sid : jstring) (t0 : Z)
    (fr : finalResult) : Prop :=
  fr_sessionId fr = sid /\
  fr_success fr = true /\
  originalUrl (fr_metadata fr) = url /\
  steps (fr_metadata fr) = stage_names /\
  (exists n, fr_processingTime fr = ms (clock env n - t0)) /\
  (exists vp s1 u,
     fr_videoUrl fr = Some u /\ res_of (uploadToSupabase env vp sid s1) = Ok u) /\
  (exists ap s2, res_of (transcribeAudio env ap s2) = Ok (fr_transcript fr)).

(** What the events of a run of session [sid] show. *)
Definition session_events (env : Env) (url : jsval) (sid : jstring) (t0 : Z)
    (t : list action) : Prop :=
  Forall (of_session sid) (written t) /\
  completes t = finals t /\
  (forall fr, In fr (finals t) -> envelope_of env url sid t0 fr).

(** ** services/gpt.js: [setConfig] *)

(** The argument of [setConfig]: each field is given or left out. *)
Record Config : Type := {
  cfg_model : option jstring;
  cfg_maxTokens : option Z;
  cfg_temperature : option Q }.

(** The client after [setConfig(config)]: [model] and [maxTokens] are
    taken when truthy, [temperature] when it is not [undefined]. *)
Definition configured (config : Config) (g : GPTService) : GPTService :=
  let g1 :=
    match cfg_model config with
    | Some (c :: m) =>
        {| model := c :: m; maxTokens := maxTokens g; temperature := temperature g |}
    | _ => g
    end in
  let g2 :=
    match cfg_maxTokens config with
    | Some n =>
        if Z.eqb n 0 then g1
        else {| model := model g1; maxTokens := n; temperature := temperature g1 |}
    | None => g1
    end in
  match cfg_temperature config with
  | Some t => {| model := model g2; maxTokens := maxTokens g2; temperature := t |}
  | None => g2
  end.

Definition setConfig (config : Config) : M unit :=
  modify (fun s => set_gpt (configured config (gpt s)) s).

(** The configuration that does what [c1] and then [c2] do. *)
Definition then_config (c1 c2 : Config) : Config :=
  {| cfg_model :=
       match cfg_model c2 with
       | Some (c :: m) => Some (c :: m)
       | _ => cfg_model c1
       end;
     cfg_maxTokens :=
       match cfg_maxTokens c2 with
       | Some n => if Z.eqb n 0 then cfg_maxTokens c1 else Some n
       | None => cfg_maxTokens c1
       end;
     cfg_temperature :=
       match cfg_temperature c2 with
       | Some t => Some t
       | None => cfg_temperature c1
       end |}.

(** ** services/downloader.js: [detectPlatform] *)

(** [s.includes(lit)], which is also the test of a regular expression that
    is a literal. *)
Fixpoint includes (s lit : jstring) : bool :=
  startsWith s lit ||
  match s with
  | _ :: s' => includes s' lit
  | [] => false
  end.

(** The line terminators, which [.] does not match. *)
Definition isLineTerminator (c : N) : bool :=
  match c with
  | 10 | 13 | 8232 | 8233 => true
  | _ => false
  end%N.

(** A match of [.*lit] at the start of [s]. *)
Fixpoint dots_then (lit s : jstring) : bool :=
  startsWith s lit ||
  match s with
  | c :: s' => negb (isLineTerminator c) && dots_then lit s'
  | [] => false
  end.

(** The test of the regular expression [a.*b], for literals [a] and [b]. *)
Fixpoint test_dots (a b s : jstring) : bool :=
  (startsWith s a && dots_then b (skipn (List.length a) s)) ||
  match s with
  | _ :: s' => test_dots a b s'
  | [] => false
  end.

Definition isYouTubeUrl (url : jstring) : bool :=
  includes url (js "youtube.com/watch?v=") || includes url (js "youtu.be/") ||
  includes url (js "youtube.com/embed/") || includes url (js "youtube.com/shorts/").

Definition isInstagramUrl (url : jstring) : bool :=
  includes url (js "instagram.com/p/") || includes url (js "instagram.com/reel/") ||
  includes url (js "instagram.com/tv/").

Definition isTwitterUrl (url : jstring) : bool :=
  test_dots (js "twitter.com/") (js "/status/") url ||
  test_dots (js "x.com/") (js "/status/") url.

Definition isTikTokUrl (url : jstring) : bool :=
  test_dots (js "tiktok.com/@") (js "/video/") url || includes url (js "vm.tiktok.com/").

Definition isFacebookUrl (url : jstring) : bool :=
  test_dots (js "facebook.com/") (js "/videos/") url || includes url (js "fb.watch/").

Definition isLinkedInUrl (url : jstring) : bool :=
  includes url (js "linkedin.com/posts/") || includes url (js "linkedin.com/feed/update/").

Definition isSnapchatUrl (url : jstring) : bool :=
  includes url (js "snapchat.com/spotlight/").

Inductive platform : Type :=
| YouTube | Instagram | TwitterX | TikTok | Facebook | LinkedIn | Snapchat | Unknown.

(** The names both sides return. *)
Definition platform_name (p : platform) : jstring :=
  match p with
  | YouTube => js "YouTube"
  | Instagram => js "Instagram"
  | TwitterX => js "Twitter/X"
  | TikTok => js "TikTok"
  | Facebook => js "Facebook"
  | LinkedIn => js "LinkedIn"
  | Snapchat => js "Snapchat"
  | Unknown => js "Unknown"
  end.

Definition detectPlatform (url : jstring) : platform :=
  if isYouTubeUrl url then YouTube
  else if isInstagramUrl url then Instagram
  else if isTwitterUrl url then TwitterX
  else if isTikTokUrl url then TikTok
  else if isFacebookUrl url then Facebook
  else if isLinkedInUrl url then LinkedIn
  else if isSnapchatUrl url then Snapchat
  else Unknown.

(** ** public/main.js *)

Module Frontend.

(** [detectPlatform(url)] of the page *)
Definition detectPlatform (url : jstring) : platform :=
  if includes url (js "youtube.com") || includes url (js "youtu.be") then YouTube
  else if includes url (js "instagram.com") then Instagram
  else if includes url (js "tiktok.com") then TikTok
  else if includes url (js "twitter.com") || includes url (js "x.com") then TwitterX
  else if includes url (js "facebook.com") || includes url (js "fb.watch") then Facebook
  else if includes url (js "linkedin.com") then LinkedIn
  else if includes url (js "snapchat.com") then Snapchat
  else Unknown.

End Frontend.

(** ** Format checks of the transcriber and of the Whisper client *)

(** [s.lastIndexOf(c)] for a single code unit: the index of its last
    occurrence, or -1. *)
Fixpoint lastIndexOf (c : N) (s : jstring) : Z :=
  match s with
  | [] => -1
  | d :: s' =>
      let r := lastIndexOf c s' in
      if r >=? 0 then r + 1 else if N.eqb d c then 0 else -1
  end.

(** [s.substring(start)]: a negative start counts as 0, one past the end
    gives the empty string. *)
Definition substring_from (start : Z) (s : jstring) : jstring :=
  skipn (Z.to_nat (Z.max 0 start)) s.

(** [formats.includes(ext)] *)
Definition format_listed (formats : list jstring) (ext : jstring) : bool :=
  existsb (eqb ext) formats.

Definition dot : N := 46%N.

Definition videoFormats : list jstring :=
  [js ".mp4"; js ".avi"; js ".mov"; js ".mkv"; js ".webm"; js ".flv"; js ".wmv"].

Definition audioFormats : list jstring :=
  [js ".mp3"; js ".mp4"; js ".mpeg"; js ".mpga"; js ".m4a"; js ".wav"; js ".webm"].

(** [getSupportedFormats()] of the Whisper client *)
Definition getSupportedFormats : list jstring :=
  [js ".mp3"; js ".mp4"; js ".mpeg"; js ".mpga"; js ".m4a"; js ".wav"; js ".webm"].

(** What [toLowerCase] does to the code units of ASCII. *)
Definition lowerAscii (c : N) : N :=
  if (65 <=? c)%N && (c <=? 90)%N then (c + 32)%N else c.

Definition isAscii (c : N) : bool := (c <? 128)%N.

Section Formats.

(** [String.prototype.toLowerCase], of which only the effect on ASCII
    strings is assumed where needed. *)
Variable toLowerCase : jstring -> jstring.

(** [validateVideoFormat(videoPath)] of the transcriber *)
Definition validateVideoFormat (videoPath : jstring) : bool :=
  let fileExtension :=
    substring_from (lastIndexOf dot videoPath) (toLowerCase videoPath) in
  format_listed videoFormats fileExtension.

(** [validateAudioFormat(audioPath)] of the Whisper client *)
Definition validateAudioFormat (audioPath : jstring) : bool :=
  let fileExtension :=
    substring_from (lastIndexOf dot audioPath) (toLowerCase audioPath) in
  format_listed audioFormats fileExtension.

End Formats.

(** An extension as the lists have them: a dot and then no dot. *)
Definition plain_extension (f : jstring) : bool :=
  match f with
  | c :: r => N.eqb c dot && forallb (fun x => negb (N.eqb x dot)) r
  | [] => false
  end.

(** ** The event stream, from [res.write] to the page's listener *)

(** The frame the controller writes for a serialised event:
    [`data: ${payload}\n\n`]. *)
Definition sse_frame (payload : jstring) : jstring :=
  js "data: " ++ payload ++ [10; 10]%N.

(** The text a session puts on its stream, for a serialiser of events. *)
Definition stream_text (stringify : event -> jstring) (t : list action) : jstring :=
  concat (List.map (fun e => sse_frame (stringify e)) (written t)).

Definition cons_head (c : N) (l : list jstring) : list jstring :=
  match l with
  | h :: t => (c :: h) :: t
  | [] => [[c]]
  end.

(** [s.split(/\n\n/)]: the pieces between the matches of two line feeds,
    found from left to right without overlap. *)
Fixpoint split_blank (s : jstring) : list jstring :=
  match s with
  | [] => [[]]
  | c :: rest =>
      match rest with
      | d :: rest' =>
          if N.eqb c 10 && N.eqb d 10 then [] :: split_blank rest'
          else cons_head c (split_blank rest)
      | [] => [[c]]
      end
  end.

(** [lines.join('\n\n')] *)
Fixpoint join_blank (l : list jstring) : jstring :=
  match l with
  | [] => []
  | [x] => x
  | x :: l' => x ++ [10; 10]%N ++ join_blank l'
  end.

(** [line.replace(/^data: /, '')] *)
Definition strip_data (line : jstring) : jstring :=
  if startsWith line (js "data: ") then skipn 6 line else line.

(** *** [new TextDecoder().decode(value)] *)

(** U+FFFD, which the decoder puts for what it cannot decode. *)
Definition replacement : N := 65533%N.

(** What a byte is to the UTF-8 decoder when no sequence is open: a code
    point of its own, a malformed byte, or the first byte of a sequence,
    with the bits it brings, the number of bytes to come and the bounds of
    the next one. *)
Inductive lead : Type :=
| Scalar (c : N)
| Malformed
| Lead (c needed lower upper : N).

Definition lead_of (b : N) : lead :=
  (if b <=? 127 then Scalar b
   else if (194 <=? b) && (b <=? 223) then Lead (N.land b 31) 1 128 191
   else if (224 <=? b) && (b <=? 239) then
     Lead (N.land b 15) 2 (if b =? 224 then 160 else 128) (if b =? 237 then 159 else 191)
   else if (240 <=? b) && (b <=? 244) then
     Lead (N.land b 7) 3 (if b =? 240 then 144 else 128) (if b =? 244 then 143 else 191)
   else Malformed)%N.

(** The UTF-8 decoder of the Encoding standard, not fatal, run over all
    the bytes of one call: the code points it gives, from the code point
    under way, the bytes seen and needed and the bounds of the next byte.
    A byte that cannot continue the open sequence ends it with U+FFFD and
    is read again as a first byte; a sequence left open at the end of the
    bytes gives U+FFFD. *)
Fixpoint utf8_decode (bytes : list N) (code seen needed lower upper : N) : list N :=
  match bytes with
  | [] => if (needed =? 0)%N then [] else [replacement]
  | b :: rest =>
      let fresh :=
        match lead_of b with
        | Scalar c => c :: utf8_decode rest 0 0 0 128 191
        | Malformed => replacement :: utf8_decode rest 0 0 0 128 191
        | Lead c n lo up => utf8_decode rest c 0 n lo up
        end%N in
      if (needed =? 0)%N then fresh
      else if ((b <? lower) || (upper <? b))%N then replacement :: fresh
      else
        let code' := N.lor (N.shiftl code 6) (N.land b 63) in
        if (seen + 1 =? needed)%N then code' :: utf8_decode rest 0 0 0 128 191
        else utf8_decode rest code' (seen + 1) needed 128 191
  end%N.

(** A byte order mark at the start of the output is left out. *)
Definition drop_bom (l : list N) : list N :=
  match l with
  | c :: l' => if (c =? 65279)%N then l' else l
  | [] => []
  end.

(** The code units of a code point in a string. *)
Definition code_units (c : N) : list N :=
  (if c <? 65536 then [c]
   else [55296 + (c - 65536) / 1024; 56320 + (c - 65536) mod 1024])%N.

(** [new TextDecoder().decode(value)]: a decoder of its own for every
    chunk, so nothing is kept from one chunk to the next. *)
Definition TextDecoder_decode (value : buffer) : jstring :=
  flat_map code_units
    (drop_bom (utf8_decode (List.map Byte.to_N value) 0 0 0 128 191)).

Definition isAsciiByte (b : Byte.byte) : bool := (Byte.to_N b <? 128)%N.

(** The bytes [res.write] sends for a text of ASCII characters: one byte
    for each code unit. *)
Definition ascii_bytes (text : jstring) : buffer :=
  List.map (fun c => default Byte.x00 (Byte.of_N c)) text.

(** The loop of [EventSourcePolyfill.connect] over the chunks of bytes the
    reader yields, from a buffer: each chunk is decoded and appended to the
    buffer, the buffer is split at blank lines, the last piece becomes the
    buffer and the others are handed to the [message] listener, if one is
    set.  The result is what the listener was handed and the buffer left
    when the reader is done. *)
Fixpoint read_chunks (listening : bool) (buffer : jstring)
    (chunks : list (list Byte.byte)) :
    list jstring * jstring :=
  match chunks with
  | [] => ([], buffer)
  | value :: rest =>
      let lines := split_blank (buffer ++ TextDecoder_decode value) in
      let messages :=
        if listening then List.map strip_data (removelast lines) else [] in
      match read_chunks listening (List.last lines []) rest with
      | (more, final) => (messages ++ more, final)
      end
  end.

(** ** public/main.js: the form, the results and the step indicators *)

(** The [submit] handler, up to the request it sends: the value of the
    input is trimmed, and nothing is sent when that leaves nothing; else
    the body of the request is [{ url }]. *)
Definition submit_url (input : jstring) : option jsval :=
  match trim input with
  | [] => None
  | c :: u => Some (JStr (c :: u))
  end.

(** [v.key] for a value that is not [null] or [undefined]. *)
Definition prop (v : jsval) (key : string) : jsval :=
  match v with
  | JObj m => default JUndefined (m !! js key)
  | _ => JUndefined
  end.

(** [a || b] *)
Definition or_else (a b : jsval) : jsval := if truthy a then a else b.

(** The arguments [populateResults] hands to [populateHooks],
    [populateCTAs] and [populateUSPs] for [result.analysis]. *)
Definition hooks_argument (analysis : jsval) : jsval :=
  or_else (prop analysis "hooks") (JArr []).

Definition ctas_argument (analysis : jsval) : jsval :=
  or_else (prop analysis "ctas") (or_else (prop analysis "CTAs") (JArr [])).

Definition usps_argument (analysis : jsval) : jsval :=
  or_else (prop analysis "usps") (or_else (prop analysis "USPs") (JArr [])).

(** [v.length === 0] *)
Definition length_is_zero (v : jsval) : bool :=
  match v with
  | JArr l => (List.length l =? 0)%nat
  | JStr str => (List.length str =? 0)%nat
  | JObj m =>
      match m !! js "length" with
      | Some (JNum q) => Z.eqb (Qnum q) 0
      | _ => false
      end
  | _ => false
  end.

(** Whether [populateHooks] (and the two like it) writes its
    "none generated" line: [!items || items.length === 0]. *)
Definition shows_placeholder (items : jsval) : bool :=
  negb (truthy items) || length_is_zero items.

Inductive status : Type := Processing | Done | Failed.

(** The second argument of [handleStepProgress]. *)
Inductive progress_type : Type := TProcessing | TDone | TError.

(** The [steps] of the page. *)
Definition page_steps : list jstring :=
  [js "download"; js "upload"; js "extraction"; js "transcription"; js "analysis";
   js "complete"].

(** [steps.indexOf(step)] *)
Fixpoint indexOf (l : list jstring) (x : jstring) : Z :=
  match l with
  | [] => -1
  | y :: l' =>
      if eqb y x then 0
      else let r := indexOf l' x in if r <? 0 then -1 else r + 1
  end.

(** What the page shows: the class of each of the six step elements (for
    those that exist), the percentage of the bar, whether the page is
    loading and whether the result section is shown. *)
Record UI : Type := {
  indicators : list (option status);
  percentage : Z;
  loading : bool;
  result_shown : bool }.

(** [handleStepProgress(step, type)]: every indicator is set anew. *)
Definition handleStepProgress (step_ : jstring) (type : progress_type) :
    list (option status) :=
  let idx := indexOf page_steps step_ in
  let after_each :=
    List.map (fun i =>
                if Z.of_nat i <? idx then Some Done
                else if Z.of_nat i =? idx then
                  Some (match type with TError => Failed | _ => Processing end)
                else None)
             (seq 0 6) in
  let after_error :=
    match type with
    | TError =>
        List.map (fun i => if idx <? Z.of_nat i then None else nth i after_each None)
                 (seq 0 6)
    | _ => after_each
    end in
  match type with
  | TError => after_error
  | _ =>
      if eqb step_ (js "complete") then
        List.map (fun i => if (i =? 5)%nat then Some Done else nth i after_error None)
                 (seq 0 6)
      else after_error
  end.

(** [progressMap[step]] *)
Definition progressMap (step_ : jstring) : option Z :=
  if eqb step_ (js "validation") then Some 10
  else if eqb step_ (js "download") then Some 25
  else if eqb step_ (js "upload") then Some 45
  else if eqb step_ (js "extraction") then Some 60
  else if eqb step_ (js "transcription") then Some 75
  else if eqb step_ (js "analysis") then Some 90
  else if eqb step_ (js "complete") then Some 100
  else None.

(** [setLoading(false)]: the bar goes back to zero. *)
Definition stop_loading (u : UI) : UI :=
  {| indicators := indicators u; percentage := 0; loading := false;
     result_shown := result_shown u |}.

(** The page once the form is submitted: indicators reset, loading, the
    bar at 5. *)
Definition submitted : UI :=
  {| indicators := [None; None; None; None; None; None]; percentage := 5;
     loading := true; result_shown := false |}.

(** The [onmessage] handler, for the value [JSON.parse(event.data)] gives
    back from what the controller serialised: a progress event has a
    [step] and no [type], a terminal event a [type] and no [step]. *)
Definition onmessage (u : UI) (e : event) : UI :=
  match e with
  | Progress p =>
      let name := step_name (pd_step p) in
      {| indicators :=
           handleStepProgress name
             (if eqb name (js "error") then TError else TProcessing);
         percentage :=
           match progressMap name with Some n => n | None => percentage u end;
         loading := loading u;
         result_shown := result_shown u |}
  | Final _ =>
      stop_loading {| indicators := handleStepProgress (js "complete") TDone;
                      percentage := 100; loading := loading u;
                      result_shown := true |}
  | Error _ =>
      stop_loading {| indicators := handleStepProgress (js "complete") TError;
                      percentage := percentage u; loading := loading u;
                      result_shown := result_shown u |}
  end.

(** The same, read off the mark of the event. *)
Definition on_mark (u : UI) (m : mark) : UI :=
  match m with
  | MProgress st _ =>
      let name := step_name st in
      {| indicators :=
           handleStepProgress name
             (if eqb name (js "error") then TError else TProcessing);
         percentage :=
           match progressMap name with Some n => n | None => percentage u end;
         loading := loading u;
         result_shown := result_shown u |}
  | MFinal =>
      stop_loading {| indicators := handleStepProgress (js "complete") TDone;
                      percentage := 100; loading := loading u;
                      result_shown := true |}
  | MError =>
      stop_loading {| indicators := handleStepProgress (js "complete") TError;
                      percentage := percentage u; loading := loading u;
                      result_shown := result_shown u |}
  | _ => u
  end.

(** The percentages shown after each of the events. *)
Fixpoint percentages (u : UI) (l : list event) : list Z :=
  match l with
  | [] => []
  | e :: l' => percentage (onmessage u e) :: percentages (onmessage u e) l'
  end.

Fixpoint percentages_of_marks (u : UI) (l : list mark) : list Z :=
  match l with
  | [] => []
  | m :: l' => percentage (on_mark u m) :: percentages_of_marks (on_mark u m) l'
  end.

(** Whether a trace holds a terminal [final] event. *)
Definition completed (t : list action) : bool :=
  match finals t with
  | [] => false
  | _ => true
  end.

Fixpoint nondecreasing (l : list Z) : bool :=
  match l with
  | x :: ((y :: _) as l') => (x <=? y) && nondecreasing l'
  | _ => true
  end.

(** * Facts *)

(* Literals stay folded in the proofs. *)
Opaque js of_Z.

(** ** Traces *)

Lemma marks_app (t u : list action) : marks (t ++ u) = marks t ++ marks u.
Proof.
  induction t as [|a t IH]; simpl; [reflexivity|].
  destruct (mark_of a); simpl; now rewrite IH.
Qed.

Lemma file_cleanups_app (t u : list action) :
  file_cleanups (t ++ u) = file_cleanups t ++ file_cleanups u.
Proof.
  induction t as [|a t IH]; simpl; [reflexivity|].
  destruct a; simpl; now rewrite IH.
Qed.

Lemma finals_app (t u : list action) : finals (t ++ u) = finals t ++ finals u.
Proof.
  induction t as [|a t IH]; simpl; [reflexivity|].
  destruct a as [|e| | | | | | | | | |]; simpl; try exact IH.
  destruct e; simpl; now rewrite IH.
Qed.

Lemma finals_marks (t : list action) :
  List.map (fun _ => MFinal) (finals t) =
  List.filter (fun m => match m with MFinal => true | _ => false end) (marks t).
Proof.
  induction t as [|a t IH]; simpl; [reflexivity|].
  destruct a as [|e| | | | | | | | | |]; simpl; try exact IH.
  destruct e; simpl; now rewrite IH.
Qed.

Lemma finals_stage (st : stage) (t : list action) :
  marks t = [MCall st] -> finals t = [].
Proof.
  intros H. pose proof (finals_marks t) as F. rewrite H in F. simpl in F.
  now destruct (finals t).
Qed.

(** The marks of a trace decide what it writes, enters and cleans. *)

Lemma written_marks (t : list action) :
  List.map event_mark (written t) = List.filter mark_is_write (marks t).
Proof.
  induction t as [|a t IH]; simpl; [reflexivity|].
  destruct a as [|e| | | | | | | | | |]; simpl; try exact IH.
  destruct e; simpl; now rewrite IH.
Qed.

Lemma is_terminal_mark (e : event) : mark_is_terminal (event_mark e) = is_terminal e.
Proof. now destruct e. Qed.

Lemma terminal_count_marks (t : list action) :
  terminal_count (written t) =
  List.length (List.filter mark_is_terminal (List.filter mark_is_write (marks t))).
Proof.
  rewrite <- written_marks. unfold terminal_count.
  induction (written t) as [|e l IH]; simpl; [reflexivity|].
  rewrite is_terminal_mark. destruct (is_terminal e); simpl; now rewrite IH.
Qed.

Lemma calls_marks (t : list action) : calls t = calls_of_marks (marks t).
Proof.
  induction t as [|a t IH]; simpl; [reflexivity|].
  destruct a as [|e| | | | | | | | | |]; simpl; try now rewrite IH.
  destruct e; simpl; now rewrite IH.
Qed.

Lemma cleanup_count_marks (t : list action) :
  cleanup_count t = count_cleanup_marks (marks t).
Proof.
  unfold count_cleanup_marks.
  induction t as [|a t IH]; simpl; [reflexivity|].
  destruct a as [|e| | | | | | | | | |]; simpl; try now rewrite IH.
  destruct e; simpl; now rewrite IH.
Qed.

(** ** The monad *)

Lemma bind_run {A B} (m : M A) (k : A -> M B) (s : State) :
  bind m k s =
  match m s with
  | (Ok a, s1, t1) =>
      (res_of (k a s1), state_of (k a s1), t1 ++ trace_of (k a s1))
  | (Throw e, s1, t1) => (Throw e, s1, t1)
  end.
Proof.
  unfold bind, res_of, state_of, trace_of.
  destruct (m s) as [[[a|e] s1] t1]; [|reflexivity].
  now destruct (k a s1) as [[r s2] t2].
Qed.

Lemma outcome_eta {A} (o : result A * State * list action) :
  o = (res_of o, state_of o, trace_of o).
Proof. now destruct o as [[r s] t]. Qed.

Lemma wp_bind {A B} (m : M A) (k : A -> M B) (s : State)
    (Q : result B -> State -> list action -> Prop) :
  wp m s (fun r s1 t1 =>
            match r with
            | Ok a => wp (k a) s1 (fun r2 s2 t2 => Q r2 s2 (t1 ++ t2))
            | Throw e => Q (Throw e) s1 t1
            end) ->
  wp (bind m k) s Q.
Proof.
  unfold wp. rewrite bind_run. unfold res_of, state_of, trace_of.
  destruct (m s) as [[[a|e] s1] t1]; simpl; auto.
Qed.

Lemma wp_emit (a : action) (s : State) (Q : result unit -> State -> list action -> Prop) :
  Q (Ok tt) s [a] -> wp (emit a) s Q.
Proof. auto. Qed.

Lemma wp_modify (f : State -> State) (s : State)
    (Q : result unit -> State -> list action -> Prop) :
  Q (Ok tt) (f s) [] -> wp (modify f) s Q.
Proof. auto. Qed.

(** A stage method, seen from the coordinator. *)
Lemma wp_stage {A} (st : stage) (m : M A) (s : State)
    (Q : result A -> State -> list action -> Prop) :
  stage_frame st m ->
  (forall r s1 t1,
     m s = (r, s1, t1) -> marks t1 = [MCall st] -> finals t1 = [] ->
     locals s1 = locals s -> Q r s1 t1) ->
  wp m s Q.
Proof.
  intros Hf HQ. destruct (Hf s) as [Hm Hl]. unfold wp.
  apply HQ; auto using outcome_eta. now apply finals_stage with st.
Qed.

(** ** The stages *)

Section Stages.

Variable env : Env.

Lemma downloadVideo_run (url : jsval) (s : State) :
  let videoId := uuid_nth env (uuids s) in
  let args := ytdlp_args url (path_join env (tempDir env) (videoId ++ js ".%(ext)s")) in
  let out := ytdlp_exec env args (dir s) in
  let s' := {| dir := snd out; bucket := bucket s; gpt := gpt s;
               uuids := S (uuids s); ticks := ticks s; locals := locals s |} in
  downloadVideo env url s =
  (match fst out with
   | Throw e => Throw (mkError (js "Failed to download video: " ++ message e))
   | Ok _ =>
       match find_download videoId (List.map fst (snd out)) with
       | Some (c :: f) => Ok (path_join env (tempDir env) (c :: f))
       | _ => Throw (mkError (js "Failed to download video: "
                                ++ js "Downloaded file not found"))
       end
   end, s', [ACall Download; AExec args]).
Proof.
  intros videoId args out s'. subst s'.
  unfold downloadVideo, bind, try_catch, emit, uuidv4, execPromise, fs_readdir,
    ret, throw. simpl.
  fold videoId. fold args. subst out.
  destruct (ytdlp_exec env args (dir s)) as [[o|e] d]; simpl; [|reflexivity].
  destruct (find_download videoId (List.map fst d)) as [[|c f]|]; reflexivity.
Qed.

Lemma uploadToSupabase_run (vp sid : jstring) (s : State) :
  let fileName := sid ++ js "_" ++ of_Z (clock env (ticks s)) ++ js ".mp4" in
  uploadToSupabase env vp sid s =
  match find (at_path env vp) (dir s) with
  | None =>
      (Throw (mkError (js "ENOENT: no such file or directory, open '"
                         ++ vp ++ js "'")), s, [ACall Upload])
  | Some f =>
      let a := AStorageUpload (bucketName env) fileName (snd f) (js "video/mp4") false in
      match storage_reject env fileName with
      | Some msg =>
          (Throw (mkError (js "Supabase upload failed: " ++ msg)), tick s,
           [ACall Upload; a])
      | None =>
          match bucket s !! fileName with
          | Some _ =>
              (Throw (mkError (js "Supabase upload failed: "
                                 ++ js "The resource already exists")), tick s,
               [ACall Upload; a])
          | None =>
              (Ok (publicUrl env (bucketName env) fileName),
               set_bucket (<[fileName := snd f]> (bucket s)) (tick s),
               [ACall Upload; a])
          end
      end
  end.
Proof.
  intros fileName.
  unfold uploadToSupabase, bind, try_catch, emit, fs_readFile, Date_now,
    storage_upload, ret, throw. simpl.
  destruct (find (at_path env vp) (dir s)) as [f|]; simpl; [|reflexivity].
  fold fileName.
  destruct (storage_reject env fileName) as [msg|]; simpl; [reflexivity|].
  destruct (_ !! _); reflexivity.
Qed.

Lemma extractAudio_run (vp : jstring) (s : State) :
  let audioPath_ := path_join env (tempDir env) (uuid_nth env (uuids s) ++ js ".wav") in
  let out := ffmpeg_save env vp audioPath_ (dir s) in
  extractAudio env vp s =
  if existsb (at_path env vp) (dir s) then
    (match fst out with Ok _ => Ok audioPath_ | Throw e => Throw e end,
     {| dir := snd out; bucket := bucket s; gpt := gpt s; uuids := S (uuids s);
        ticks := ticks s; locals := locals s |},
     [ACall Extraction; AFfmpeg vp audioPath_])
  else
    (Throw (mkError (js "Video file not found: " ++ vp)), s, [ACall Extraction]).
Proof.
  intros audioPath_ out. subst out.
  unfold extractAudio, bind, emit, fs_pathExists, uuidv4, ffmpeg_run, ret, throw.
  simpl.
  destruct (existsb (at_path env vp) (dir s)); simpl; [|reflexivity].
  fold audioPath_.
  destruct (ffmpeg_save env vp audioPath_ (dir s)) as [[[]|e] d]; reflexivity.
Qed.

Lemma transcribeAudio_run (ap : jstring) (s : State) :
  transcribeAudio env ap s =
  if existsb (at_path env ap) (dir s) then
    match find (at_path env ap) (dir s) with
    | Some f =>
        (whisper_create env (snd f) whisper_model, s,
         [ACall Transcription; AWhisper (snd f) whisper_model])
    | None =>
        (Throw (mkError (js "ENOENT: no such file or directory, open '"
                           ++ ap ++ js "'")), s, [ACall Transcription])
    end
  else
    (Throw (mkError (js "Audio file not found: " ++ ap)), s, [ACall Transcription]).
Proof.
  unfold transcribeAudio, transcriptions_create, bind, try_catch, emit,
    fs_pathExists, fs_readFile, ret, throw. simpl.
  destruct (existsb (at_path env ap) (dir s)); simpl; [|reflexivity].
  destruct (find (at_path env ap) (dir s)) as [f|]; simpl; [|reflexivity].
  destruct (whisper_create env (snd f) whisper_model); reflexivity.
Qed.

Lemma analyzeContent_run (transcript : jstring) (s : State) :
  let rq := chat_request_of (gpt s) (createAnalysisPrompt transcript) in
  analyzeContent env transcript s =
  (match chat_create env rq with
   | Throw e => Throw e
   | Ok c =>
       match JSON_parse env (content c) with
       | Throw e => Throw e
       | Ok a =>
           match validateAnalysisResponse a with
           | Throw e => Throw e
           | Ok _ => Ok a
           end
       end
   end, s, [ACall Analysis; AChat rq]).
Proof.
  intros rq.
  unfold analyzeContent, completions_create, bind, try_catch, emit, get, lift,
    ret, throw. simpl. fold rq.
  destruct (chat_create env rq) as [c|e]; simpl; [|reflexivity].
  destruct (JSON_parse env (content c)) as [a|e]; simpl; [|reflexivity].
  destruct (validateAnalysisResponse a) as [[]|e]; reflexivity.
Qed.

Lemma downloadVideo_frame (url : jsval) : stage_frame Download (downloadVideo env url).
Proof.
  intros s. rewrite downloadVideo_run. split; reflexivity.
Qed.

Lemma uploadToSupabase_frame (vp sid : jstring) :
  stage_frame Upload (uploadToSupabase env vp sid).
Proof.
  intros s. rewrite uploadToSupabase_run.
  destruct (find _ _); [|split; reflexivity].
  destruct (storage_reject _ _); [split; reflexivity|].
  destruct (_ !! _); split; reflexivity.
Qed.

Lemma extractAudio_frame (vp : jstring) : stage_frame Extraction (extractAudio env vp).
Proof.
  intros s. rewrite extractAudio_run.
  destruct (existsb _ _); split; reflexivity.
Qed.

Lemma transcribeAudio_frame (ap : jstring) :
  stage_frame Transcription (transcribeAudio env ap).
Proof.
  intros s. rewrite transcribeAudio_run.
  destruct (existsb _ _); [|split; reflexivity].
  destruct (find _ _); split; reflexivity.
Qed.

Lemma analyzeContent_frame (transcript : jstring) :
  stage_frame Analysis (analyzeContent env transcript).
Proof.
  intros s. rewrite analyzeContent_run. split; reflexivity.
Qed.

Lemma downloadVideo_path (url : jsval) (s : State) (p : jstring) :
  res_of (downloadVideo env url s) = Ok p -> p <> [].
Proof.
  rewrite downloadVideo_run. unfold res_of; simpl.
  destruct (fst _); [|discriminate].
  destruct (find_download _ _) as [[|c f]|]; try discriminate.
  intros [= <-]. apply path_join_nonempty.
Qed.

Lemma extractAudio_path (vp : jstring) (s : State) (p : jstring) :
  res_of (extractAudio env vp s) = Ok p -> p <> [].
Proof.
  rewrite extractAudio_run.
  destruct (existsb _ _); unfold res_of; simpl; [|discriminate].
  destruct (fst _); [|discriminate].
  intros [= <-]. apply path_join_nonempty.
Qed.

(** *** Cleanup *)

Lemma Downloader_cleanup_run (p : jstring) (s : State) :
  Downloader_cleanup env p s =
  (Ok tt, after_file_cleanup env p s,
   AFileCleanup ByDownloader p :: removal_trace env p s).
Proof.
  unfold Downloader_cleanup, bind, try_catch, emit, fs_pathExists, when,
    after_file_cleanup, removal_trace, fs_remove, ret, without. simpl.
  destruct (existsb (at_path env p) (dir s)); simpl; [|reflexivity].
  destruct (fs_remove_error env p); reflexivity.
Qed.

Lemma Transcriber_cleanup_run (p : jstring) (s : State) :
  Transcriber_cleanup env p s =
  (Ok tt, after_file_cleanup env p s,
   AFileCleanup ByTranscriber p :: removal_trace env p s).
Proof.
  unfold Transcriber_cleanup, bind, try_catch, emit, fs_pathExists, when,
    after_file_cleanup, removal_trace, fs_remove, ret, without. simpl.
  destruct (existsb (at_path env p) (dir s)); simpl; [|reflexivity].
  destruct (fs_remove_error env p); reflexivity.
Qed.

Lemma cleanup_run (vp ap : option jstring) (s : State) :
  cleanup env vp ap s =
  (Ok tt, cleaned env ap (cleaned env vp s),
   ACleanup vp ap ::
     cleaning env ByDownloader vp s ++
     cleaning env ByTranscriber ap (cleaned env vp s)).
Proof.
  unfold cleanup, bind, try_catch, emit. simpl.
  destruct vp as [[|c p]|], ap as [[|d q]|]; simpl;
    rewrite ?Downloader_cleanup_run, ?Transcriber_cleanup_run; simpl;
    rewrite ?Transcriber_cleanup_run, ?app_nil_r; reflexivity.
Qed.

End Stages.

(** ** The coordinator *)

Section Coordinator.

Variable env : Env.

Lemma sendProgress_run (sid : jstring) (st : step) (msg : string) (d : payload)
    (s : State) :
  sendProgress env sid st msg d s =
  (Ok tt, tick s,
   [AWrite (Progress {| pd_sessionId := sid; pd_step := st; pd_message := js msg;
                        pd_timestamp := toISOString env (clock env (ticks s));
                        pd_data := d |})]).
Proof. reflexivity. Qed.

Lemma catch_block_run (sid : jstring) (t0 : Z) (e : jserror) (s : State) :
  catch_block env sid t0 e s =
  (Ok tt, tick (tick (tick s)),
   [AWrite (Progress (error_progress env sid t0 e s));
    AWrite (Error (errorResponse_of env sid t0 e s)); AEnd]).
Proof. reflexivity. Qed.

Lemma analyzeVideo_run (url : jsval) (s : State) :
  let a := attempt env url s in
  let h := handled env (sessionId_of env s) (startTime_of env s) a in
  let vp := videoPath (locals (state_of h)) in
  let ap := audioPath (locals (state_of h)) in
  analyzeVideo env url s =
  (Ok tt, cleaned env ap (cleaned env vp (state_of h)),
   AWriteHead :: trace_of a ++ trace_of h ++
     ACleanup vp ap ::
       cleaning env ByDownloader vp (state_of h) ++
       cleaning env ByTranscriber ap (cleaned env vp (state_of h))).
Proof.
  intros a h vp ap. subst vp ap h a.
  unfold analyzeVideo, attempt, handled, finally_block.
  unfold bind at 1 2 3 4. unfold Date_now, uuidv4, emit, modify, set_locals.
  cbn [dir bucket gpt uuids ticks locals].
  change {| dir := dir s; bucket := bucket s; gpt := gpt s; uuids := S (uuids s);
            ticks := S (ticks s);
            locals := {| videoPath := None; audioPath := None;
                         supabaseVideoUrl := None |} |}
    with (session_state s).
  unfold try_finally, try_catch, sessionId_of, startTime_of.
  destruct (try_block env url (uuid_nth env (uuids s)) (clock env (ticks s))
              (session_state s)) as [[[[]|e] s1] t1].
  - unfold res_of, state_of, trace_of. cbn [fst snd].
    rewrite bind_run. unfold get. rewrite cleanup_run.
    unfold res_of, state_of, trace_of. cbn [fst snd]. reflexivity.
  - unfold res_of, state_of, trace_of. cbn [fst snd].
    rewrite catch_block_run, bind_run. unfold get. rewrite cleanup_run.
    unfold res_of, state_of, trace_of. cbn [fst snd].
    rewrite <- app_assoc. reflexivity.
Qed.


Lemma wp_sendProgress (sid : jstring) (st : step) (msg : string) (d : payload)
    (s : State) (Q : result unit -> State -> list action -> Prop) :
  Q (Ok tt) (tick s)
    [AWrite (Progress {| pd_sessionId := sid; pd_step := st; pd_message := js msg;
                         pd_timestamp := toISOString env (clock env (ticks s));
                         pd_data := d |})] ->
  wp (sendProgress env sid st msg d) s Q.
Proof. auto. Qed.

Lemma wp_Date_now (s : State) (Q : result Z -> State -> list action -> Prop) :
  Q (Ok (clock env (ticks s))) (tick s) [] -> wp (Date_now env) s Q.
Proof. auto. Qed.

Local Opaque downloadVideo uploadToSupabase extractAudio transcribeAudio
  analyzeContent.

Ltac progress_ := apply wp_bind, wp_sendProgress.

Ltac close_follows :=
  unfold wp, throw, follows, res_of, state_of, trace_of in *; simpl in *;
  repeat split; intros; try reflexivity; try discriminate; try congruence;
  try contradiction; auto.

Ltac marks_ :=
  repeat first
    [ rewrite marks_app
    | progress simpl
    | match goal with H : marks _ = _ |- _ => rewrite H end ];
  try reflexivity.

Ltac locals_ :=
  repeat match goal with H : locals _ = _ |- _ => rewrite H; clear H; simpl end;
  repeat split; auto.

Ltac finals_ :=
  match goal with H : In _ (finals _) |- _ =>
    repeat first
      [ rewrite finals_app in H
      | progress simpl in H
      | match goal with F : finals _ = [] |- _ => rewrite F in H end ];
    try contradiction
  end.

Ltac failed_at st :=
  exists (FailedAt st); close_follows; [marks_ | locals_ .. | finals_].

Lemma try_block_wp (url : jsval) (sid : jstring) (t0 : Z) (s : State) :
  locals s = no_locals ->
  wp (try_block env url sid t0) s
     (fun r s' t => exists c, follows env url c (r, s', t)).
Proof.
  intros Hloc. unfold try_block.
  destruct (truthy url) eqn:Hurl; cbn [negb].
  2:{ exists Rejected. close_follows; locals_. }
  progress_. progress_. apply wp_bind.
  eapply wp_stage; [apply downloadVideo_frame|].
  intros [vp|e] s1 t1 E1 Hm1 Hf1 Hl1; [|failed_at Download].
  assert (Hvp : vp <> []).
  { apply (downloadVideo_path env url (tick (tick s))). now rewrite E1. }
  apply wp_bind, wp_modify. progress_. progress_. apply wp_bind.
  eapply wp_stage; [apply uploadToSupabase_frame|].
  intros [u|e] s2 t2 E2 Hm2 Hf2 Hl2; [|failed_at Upload].
  apply wp_bind, wp_modify. progress_. progress_. apply wp_bind.
  eapply wp_stage; [apply extractAudio_frame|].
  intros [ap|e] s3 t3 E3 Hm3 Hf3 Hl3; [|failed_at Extraction].
  assert (Hap : ap <> []).
  { eapply extractAudio_path. now rewrite E3. }
  apply wp_bind, wp_modify. progress_. progress_. apply wp_bind.
  eapply wp_stage; [apply transcribeAudio_frame|].
  intros [transcript|e] s4 t4 E4 Hm4 Hf4 Hl4; [|failed_at Transcription].
  progress_. progress_. apply wp_bind.
  eapply wp_stage; [apply analyzeContent_frame|].
  intros [analysis_|e] s5 t5 E5 Hm5 Hf5 Hl5; [|failed_at Analysis].
  progress_. apply wp_bind, wp_Date_now. apply wp_bind, wp_Date_now.
  progress_. apply wp_bind, wp_emit. apply wp_emit.
  exists Completed. close_follows; [marks_ | locals_ .. |].
  finals_.
  match goal with H : _ \/ False |- _ => destruct H as [<-|[]] end.
  simpl. eexists _, _. rewrite E5. reflexivity.
Qed.

Lemma attempt_follows (url : jsval) (s : State) :
  exists c, follows env url c (attempt env url s).
Proof.
  rewrite (outcome_eta (attempt env url s)).
  exact (try_block_wp url _ _ (session_state s) eq_refl).
Qed.

Lemma try_marks_inj (c c' : course) : try_marks c = try_marks c' -> c = c'.
Proof.
  destruct c as [|[]|], c' as [|[]|]; intros H; try reflexivity; discriminate.
Qed.

Ltac into_stage E :=
  unfold staged at 1; cbv zeta;
  unfold record_video, record_url, record_audio, record_nothing;
  rewrite E; unfold res_of, state_of, trace_of; cbn [fst snd].

Ltac stage_ok E := into_stage E; eexists; split; [reflexivity|].

Ltac in_pipeline :=
  cbv beta; unfold pipeline; cbn [app]; eexists; split; [reflexivity|].

Lemma try_block_staged (url : jsval) (sid : jstring) (t0 : Z) (s : State) :
  truthy url = true ->
  wp (try_block env url sid t0) s
     (fun r s' t =>
        exists c, marks t = try_marks c /\ pipeline env url sid c s r s' t).
Proof.
  intros Hurl. unfold try_block. rewrite Hurl. cbn [negb].
  progress_. progress_. apply wp_bind.
  eapply wp_stage; [apply downloadVideo_frame|].
  intros [vp|e] s1 t1 E1 Hm1 _ _.
  2:{ exists (FailedAt Download). split; [marks_|]. in_pipeline.
      into_stage E1. auto. }
  apply wp_bind, wp_modify. progress_. progress_. apply wp_bind.
  eapply wp_stage; [apply uploadToSupabase_frame|].
  intros [u|e] s2 t2 E2 Hm2 _ _.
  2:{ exists (FailedAt Upload). split; [marks_|]. in_pipeline.
      stage_ok E1. into_stage E2. auto. }
  apply wp_bind, wp_modify. progress_. progress_. apply wp_bind.
  eapply wp_stage; [apply extractAudio_frame|].
  intros [ap|e] s3 t3 E3 Hm3 _ _.
  2:{ exists (FailedAt Extraction). split; [marks_|]. in_pipeline.
      stage_ok E1. stage_ok E2. into_stage E3. auto. }
  apply wp_bind, wp_modify. progress_. progress_. apply wp_bind.
  eapply wp_stage; [apply transcribeAudio_frame|].
  intros [transcript|e] s4 t4 E4 Hm4 _ _.
  2:{ exists (FailedAt Transcription). split; [marks_|]. in_pipeline.
      stage_ok E1. stage_ok E2. stage_ok E3. into_stage E4. auto. }
  progress_. progress_. apply wp_bind.
  eapply wp_stage; [apply analyzeContent_frame|].
  intros [analysis_|e] s5 t5 E5 Hm5 _ _.
  2:{ exists (FailedAt Analysis). split; [marks_|]. in_pipeline.
      stage_ok E1. stage_ok E2. stage_ok E3. stage_ok E4. into_stage E5. auto. }
  progress_. apply wp_bind, wp_Date_now. apply wp_bind, wp_Date_now.
  progress_. apply wp_bind, wp_emit. apply wp_emit.
  exists Completed. split; [marks_|]. in_pipeline.
  stage_ok E1. stage_ok E2. stage_ok E3. stage_ok E4. stage_ok E5.
  unfold finished. split; [reflexivity|]. split; [reflexivity|].
  eexists. split; [|split; [|split]].
  4: reflexivity.
  all: reflexivity.
Qed.

(** The course of a session, with what its [try] block shows of it. *)
Lemma attempt_staged (url : jsval) (s : State) :
  exists c,
    follows env url c (attempt env url s) /\
    (truthy url = true ->
     pipeline env url (sessionId_of env s) c (session_state s)
       (res_of (attempt env url s)) (state_of (attempt env url s))
       (trace_of (attempt env url s))).
Proof.
  destruct (attempt_follows url s) as [c F]. exists c. split; [exact F|].
  intros Hurl.
  destruct (try_block_staged url (sessionId_of env s) (startTime_of env s)
              (session_state s) Hurl) as (c' & Hm & P).
  destruct F as (_ & _ & Ht & _). unfold attempt in Ht.
  rewrite Hm in Ht. apply try_marks_inj in Ht. now subst c'.
Qed.

(** *** The whole session *)

Lemma session_marks_split (c : course) :
  session_marks c = MHead :: try_marks c ++ catch_marks c ++ cleanup_marks c.
Proof. destruct c as [|[]|]; reflexivity. Qed.

Lemma marks_cleaning (by_ : cleaner) (p : option jstring) (s : State) :
  marks (cleaning env by_ p s) =
  if truthy_path p then [MFileCleanup by_] else [].
Proof.
  destruct p as [[|c q]|]; simpl; try reflexivity.
  unfold removal_trace. now destruct (existsb _ _).
Qed.

Lemma file_cleanups_cleaning (by_ : cleaner) (p : option jstring) (s : State) :
  file_cleanups (cleaning env by_ p s) =
  match p with Some (c :: q) => [(by_, c :: q)] | _ => [] end.
Proof.
  destruct p as [[|c q]|]; simpl; try reflexivity.
  unfold removal_trace. now destruct (existsb _ _).
Qed.

Lemma recorded_paths (url : jsval) (c : course)
    (a : result unit * State * list action) :
  follows env url c a ->
  truthy_path (videoPath (locals (state_of a))) = video_recorded c /\
  truthy_path (audioPath (locals (state_of a))) = audio_recorded c.
Proof.
  intros (_ & _ & _ & Hv & Ha & _).
  destruct (videoPath _) as [[|x p]|], (audioPath _) as [[|y q]|]; simpl;
    intuition congruence.
Qed.

Lemma handled_locals (sid : jstring) (t0 : Z) (a : result unit * State * list action) :
  locals (state_of (handled env sid t0 a)) = locals (state_of a).
Proof.
  unfold handled. destruct (res_of a); [reflexivity|].
  now rewrite catch_block_run.
Qed.

Lemma handled_dir (sid : jstring) (t0 : Z) (a : result unit * State * list action) :
  dir (state_of (handled env sid t0 a)) = dir (state_of a).
Proof.
  unfold handled. destruct (res_of a); [reflexivity|].
  now rewrite catch_block_run.
Qed.

Lemma handled_marks (url : jsval) (c : course) (sid : jstring) (t0 : Z)
    (a : result unit * State * list action) :
  follows env url c a -> marks (trace_of (handled env sid t0 a)) = catch_marks c.
Proof.
  intros (_ & [Hc1 Hc2] & _). unfold handled.
  destruct (res_of a) as [[]|e].
  - now rewrite Hc2.
  - rewrite catch_block_run.
    destruct c as [| |]; try reflexivity.
    now specialize (Hc1 eq_refl).
Qed.

Lemma analyzeVideo_marks (url : jsval) (s : State) (c : course) :
  follows env url c (attempt env url s) ->
  marks (trace_of (analyzeVideo env url s)) = session_marks c.
Proof.
  intros F. pose proof F as (_ & _ & Hm & _).
  rewrite analyzeVideo_run, session_marks_split. unfold trace_of at 1. cbn [snd].
  change (AWriteHead :: ?t) with ([AWriteHead] ++ t).
  change (ACleanup ?v ?a :: ?t) with ([ACleanup v a] ++ t).
  rewrite !marks_app, !marks_cleaning, Hm, (handled_marks url c _ _ _ F).
  rewrite !handled_locals.
  destruct (recorded_paths url c _ F) as [-> ->]. reflexivity.
Qed.

Lemma analyzeVideo_ok (url : jsval) (s : State) :
  res_of (analyzeVideo env url s) = Ok tt.
Proof. now rewrite analyzeVideo_run. Qed.

End Coordinator.

Lemma closes_split (w : list event) :
  closes (List.map event_mark w) = true ->
  exists pre e,
    w = pre ++ [e] /\ is_terminal e = true /\
    Forall (fun x => is_terminal x = false) pre.
Proof.
  unfold closes. rewrite <- map_rev.
  destruct (rev w) as [|e pre] eqn:E; [discriminate|]. simpl.
  intros [He Hpre]%andb_prop.
  exists (rev pre), e. repeat split.
  - rewrite <- (rev_involutive w), E. reflexivity.
  - now rewrite <- is_terminal_mark.
  - apply List.Forall_forall. intros x Hx%in_rev.
    rewrite forallb_forall in Hpre.
    specialize (Hpre (event_mark x) (in_map _ _ _ Hx)).
    rewrite is_terminal_mark in Hpre. now destruct (is_terminal x).
Qed.

Lemma file_cleanups_marks (t : list action) :
  List.map fst (file_cleanups t) = cleaners_of_marks (marks t).
Proof.
  induction t as [|a t IH]; simpl; [reflexivity|].
  destruct a as [|e| | | | | | | | | |]; simpl; try now rewrite IH.
  destruct e; simpl; now rewrite IH.
Qed.

Lemma file_cleanups_none (t : list action) :
  cleaners_of_marks (marks t) = [] -> file_cleanups t = [].
Proof.
  rewrite <- file_cleanups_marks. now destruct (file_cleanups t).
Qed.

Lemma written_none (t : list action) :
  List.filter mark_is_write (marks t) = [] -> written t = [].
Proof.
  rewrite <- written_marks. now destruct (written t).
Qed.


(** After a file cleanup whose removal does not fail, nothing is left at
    the path; and a file cleanup never adds an entry. *)
Lemma without_gone (env : Env) (p : jstring) (d : list file) :
  existsb (at_path env p) (without env p d) = false.
Proof.
  unfold without. induction d as [|f d IH]; simpl; [reflexivity|].
  destruct (at_path env p f) eqn:E; simpl; [exact IH|].
  now rewrite E.
Qed.

Lemma after_file_cleanup_gone (env : Env) (p : jstring) (s : State) :
  fs_remove_error env p = None ->
  existsb (at_path env p) (dir (after_file_cleanup env p s)) = false.
Proof.
  intros H. unfold after_file_cleanup.
  destruct (existsb (at_path env p) (dir s)) eqn:E; [|exact E].
  rewrite H. apply without_gone.
Qed.

Lemma after_file_cleanup_incl (env : Env) (p : jstring) (s : State) (f : file) :
  In f (dir (after_file_cleanup env p s)) -> In f (dir s).
Proof.
  unfold after_file_cleanup.
  destruct (existsb _ _); [|auto].
  destruct (fs_remove_error env p); [auto|].
  simpl. unfold without. now intros [H _]%filter_In.
Qed.

Lemma after_file_cleanup_keeps_gone (env : Env) (p q : jstring) (s : State) :
  existsb (at_path env q) (dir s) = false ->
  existsb (at_path env q) (dir (after_file_cleanup env p s)) = false.
Proof.
  intros H. apply not_true_is_false. intros (f & Hf & Hq)%existsb_exists.
  apply after_file_cleanup_incl in Hf.
  assert (existsb (at_path env q) (dir s) = true) by (apply existsb_exists; eauto).
  congruence.
Qed.

Lemma cleaned_incl (env : Env) (p : option jstring) (s : State) (f : file) :
  In f (dir (cleaned env p s)) -> In f (dir s).
Proof.
  destruct p as [[|c q]|]; simpl; auto. apply after_file_cleanup_incl.
Qed.

(** ** Trimming *)

Lemma trimStart_blank (str : jstring) :
  trimStart str = [] <-> forallb isWhiteSpace str = true.
Proof.
  induction str as [|c str IH]; simpl; [tauto|].
  destruct (isWhiteSpace c); simpl; [exact IH|]. split; discriminate.
Qed.

Lemma trimStart_suffix (str : jstring) :
  exists pre, str = pre ++ trimStart str /\ forallb isWhiteSpace pre = true.
Proof.
  induction str as [|c str (pre & E & B)]; simpl.
  - now exists [].
  - destruct (isWhiteSpace c) eqn:W.
    + exists (c :: pre). simpl. rewrite W, B. now rewrite <- E.
    + now exists [].
Qed.

(** A string is empty after trimming exactly when it holds nothing but
    white space. *)
Lemma trim_blank (str : jstring) :
  trim str = [] <-> forallb isWhiteSpace str = true.
Proof.
  unfold trim, trimEnd. split.
  - intros H. apply (f_equal (@rev N)) in H. rewrite rev_involutive in H.
    simpl in H. apply trimStart_blank in H.
    destruct (trimStart_suffix str) as (pre & E & B).
    rewrite E, forallb_app, B. simpl.
    rewrite forallb_forall in *. intros x Hx. apply H. now apply in_rev in Hx.
  - intros H. apply trimStart_blank in H. now rewrite H.
Qed.

(** ** Validation of the analysis *)

Lemma validate_field_present (v : jsval) (k : jstring) :
  validate_field v k = Ok tt <-> field_present v k.
Proof.
  unfold validate_field, field_present. split.
  - destruct v as [| | | | |l|m]; simpl; try discriminate.
    destruct (m !! k) as [[| |b|q|str|l|m']|] eqn:E; simpl;
      rewrite ?orb_true_r; try discriminate.
    destruct str as [|c str]; simpl; [discriminate|].
    destruct (trim (c :: str)) eqn:T; simpl; [discriminate|].
    intros _. exists m, (c :: str). rewrite T. repeat split; auto; discriminate.
  - intros (m & str & -> & Hk & Ht). simpl. rewrite Hk. simpl.
    destruct str as [|c str]; [now elim Ht|]. simpl.
    destruct (trim (c :: str)); [now elim Ht|]. reflexivity.
Qed.

Lemma validate_field_defect (v : jsval) (k : jstring) :
  field_defect v k -> exists e, validate_field v k = Throw e.
Proof.
  unfold validate_field. intros [H|x H Hx|str H Ht]; rewrite H.
  - simpl. eauto.
  - rewrite Hx, orb_true_r. eauto.
  - destruct str as [|c str]; simpl; [eauto|]. rewrite Ht. simpl. eauto.
Qed.

Lemma validate_fields_all (v : jsval) (l : list jstring) :
  validate_fields v l = Ok tt <-> forall k, In k l -> validate_field v k = Ok tt.
Proof.
  induction l as [|k l IH]; simpl.
  - split; [intros _ k []|reflexivity].
  - destruct (validate_field v k) as [[]|e] eqn:E.
    + rewrite IH. split; [intros H k' [<-|H']; auto|auto].
    + split; [discriminate|]. intros H. specialize (H k (or_introl eq_refl)).
      congruence.
Qed.

Lemma validateAnalysisResponse_present (v : jsval) :
  validateAnalysisResponse v = Ok tt <->
  forall k, In k requiredFields -> field_present v k.
Proof.
  unfold validateAnalysisResponse. rewrite validate_fields_all.
  split; intros H k Hk; apply validate_field_present; auto.
Qed.

Lemma validateAnalysisResponse_defect (v : jsval) (k : jstring) :
  In k requiredFields -> field_defect v k ->
  exists e, validateAnalysisResponse v = Throw e.
Proof.
  intros Hk Hd. destruct (validateAnalysisResponse v) as [[]|e] eqn:E; [|eauto].
  unfold validateAnalysisResponse in E. rewrite validate_fields_all in E.
  destruct (validate_field_defect v k Hd) as [e He].
  specialize (E k Hk). congruence.
Qed.

Lemma analyzeContent_ok (env : Env) (transcript : jstring) (s : State) (a : jsval) :
  res_of (analyzeContent env transcript s) = Ok a ->
  exists c,
    chat_create env (chat_request_of (gpt s) (createAnalysisPrompt transcript)) = Ok c /\
    JSON_parse env (content c) = Ok a /\
    validateAnalysisResponse a = Ok tt.
Proof.
  rewrite analyzeContent_run. unfold res_of. cbn [fst].
  destruct (chat_create _ _) as [c|e] eqn:Ec; [|discriminate].
  destruct (JSON_parse _ _) as [v|e] eqn:Ev; [|discriminate].
  destruct (validateAnalysisResponse v) as [[]|e] eqn:E; [|discriminate].
  intros [= <-]. eauto.
Qed.


Lemma finals_none (t : list action) :
  List.filter (fun m => match m with MFinal => true | _ => false end) (marks t) = [] ->
  finals t = [].
Proof.
  rewrite <- finals_marks. now destruct (finals t).
Qed.



Lemma recorded_paths_gone (env : Env) (url : jsval) (s : State) (p : jstring) :
  videoPath (locals (state_of (attempt env url s))) = Some p \/
  audioPath (locals (state_of (attempt env url s))) = Some p ->
  fs_remove_error env p = None ->
  existsb (at_path env p) (dir (state_of (analyzeVideo env url s))) = false.
Proof.
  intros Hp Hrm.
  destruct (attempt_follows env url s) as [c F].
  pose proof F as (_ & _ & _ & Hv & Ha & _).
  rewrite analyzeVideo_run. unfold state_of at 1. cbn [fst snd].
  rewrite !handled_locals.
  destruct Hp as [Hp|Hp].
  - rewrite Hp in *. destruct Hv as [_ Hne]. destruct p as [|x p]; [congruence|].
    destruct (audioPath _) as [[|y q]|]; simpl cleaned at 1.
    + now destruct Ha as [_ []].
    + apply after_file_cleanup_keeps_gone. simpl.
      now apply after_file_cleanup_gone.
    + simpl. now apply after_file_cleanup_gone.
  - rewrite Hp in *. destruct Ha as [_ Hne]. destruct p as [|y q]; [congruence|].
    simpl cleaned at 1. now apply after_file_cleanup_gone.
Qed.

Lemma after_file_cleanup_keeps (env : Env) (q : jstring) (s : State) (f : file) :
  In f (dir s) ->
  (at_path env q f = true -> fs_remove_error env q <> None) ->
  In f (dir (after_file_cleanup env q s)).
Proof.
  intros Hin Hq. unfold after_file_cleanup.
  destruct (existsb _ _); [|exact Hin].
  destruct (fs_remove_error env q) eqn:E; [exact Hin|].
  simpl. unfold without. apply filter_In. split; [exact Hin|].
  destruct (at_path env q f); [|reflexivity].
  now destruct (Hq eq_refl).
Qed.

Lemma cleaned_keeps (env : Env) (q : option jstring) (s : State) (f : file) :
  In f (dir s) ->
  (forall x, q = Some x -> at_path env x f = true -> fs_remove_error env x <> None) ->
  In f (dir (cleaned env q s)).
Proof.
  intros Hin Hq. destruct q as [[|c q]|]; simpl; auto.
  apply after_file_cleanup_keeps; eauto.
Qed.

Lemma at_path_eq (env : Env) (p q : jstring) (f : file) :
  at_path env p f = true -> at_path env q f = true -> q = p.
Proof.
  unfold at_path, eqb. intros H1%bool_decide_eq_true H2%bool_decide_eq_true.
  congruence.
Qed.

(** A file at a path whose removal fails outlives the session. *)
Lemma failed_removal_keeps (env : Env) (url : jsval) (s : State) (p : jstring)
    (f : file) :
  fs_remove_error env p <> None ->
  In f (dir (state_of (attempt env url s))) ->
  at_path env p f = true ->
  In f (dir (state_of (analyzeVideo env url s))).
Proof.
  intros Hrm Hin Hp.
  rewrite analyzeVideo_run. unfold state_of at 1. cbn [fst snd].
  apply cleaned_keeps; [apply cleaned_keeps|].
  - now rewrite handled_dir.
  - intros x _ Hx. now rewrite (at_path_eq env p x f Hp Hx).
  - intros x _ Hx. now rewrite (at_path_eq env p x f Hp Hx).
Qed.

(** * The properties of the specification *)

(** C1. Every session writes exactly one terminal event on its stream,
    [final] or [error], and that event is the last one written: no progress
    event and no second terminal event follows it. *)
Theorem one_terminal_event_last (env : Env) (url : jsval) (s : State) :
  let t := trace_of (analyzeVideo env url s) in
  terminal_count (written t) = 1%nat /\
  exists pre e,
    written t = pre ++ [e] /\ is_terminal e = true /\
    Forall (fun x => is_terminal x = false) pre.
Proof.
  intros t. subst t.
  destruct (attempt_follows env url s) as [c F].
  pose proof (analyzeVideo_marks env url s c F) as Hm.
  split.
  - rewrite terminal_count_marks, Hm. destruct c as [|[]|]; reflexivity.
  - apply closes_split. rewrite written_marks, Hm.
    destruct c as [|[]|]; reflexivity.
Qed.


(** C3. Whether the pipeline succeeds or fails, the call returns normally;
    cleanup is entered exactly once, after the terminal event and with
    nothing written after it; it starts the cleanup of the video file when
    one was recorded and of the audio file when one was recorded, each of
    them whatever the removal of the other does; and a removal that does
    not fail leaves nothing at its path. *)
Theorem cleanup_once_after_terminal (env : Env) (url : jsval) (s : State) :
  let a := attempt env url s in
  let o := analyzeVideo env url s in
  let vp := videoPath (locals (state_of a)) in
  let ap := audioPath (locals (state_of a)) in
  res_of o = Ok tt /\
  cleanup_count (trace_of o) = 1%nat /\
  (exists pre post,
     trace_of o = pre ++ ACleanup vp ap :: post /\
     terminal_count (written pre) = 1%nat /\
     written post = []) /\
  file_cleanups (trace_of o) =
    match vp with Some p => [(ByDownloader, p)] | None => [] end ++
    match ap with Some p => [(ByTranscriber, p)] | None => [] end /\
  (forall p, vp = Some p \/ ap = Some p ->
     fs_remove_error env p = None ->
     existsb (at_path env p) (dir (state_of o)) = false).
Proof.
  intros a o vp ap. subst o.
  destruct (attempt_follows env url s) as [c F]. fold a in F.
  pose proof (analyzeVideo_marks env url s c F) as Hm.
  pose proof F as (_ & _ & Ht & Hv & Ha & _). fold vp in Hv. fold ap in Ha.
  set (h := handled env (sessionId_of env s) (startTime_of env s) a).
  assert (Hrun := analyzeVideo_run env url s). cbv zeta in Hrun.
  fold a in Hrun. rewrite !(handled_locals env _ _ a) in Hrun.
  fold h vp ap in Hrun.
  split; [apply analyzeVideo_ok|]. split.
  { rewrite cleanup_count_marks, Hm. destruct c as [|[]|]; reflexivity. }
  split.
  { exists (AWriteHead :: trace_of a ++ trace_of h),
      (cleaning env ByDownloader vp (state_of h) ++
       cleaning env ByTranscriber ap (cleaned env vp (state_of h))).
    split; [|split].
    - rewrite Hrun. unfold trace_of at 1. cbn [snd].
      rewrite <- !app_comm_cons. f_equal. now rewrite <- !app_assoc.
    - rewrite terminal_count_marks.
      change (AWriteHead :: ?x) with ([AWriteHead] ++ x).
      rewrite !marks_app, Ht. unfold h.
      rewrite (handled_marks env url c _ _ a F).
      destruct c as [|[]|]; reflexivity.
    - apply written_none. rewrite marks_app, !marks_cleaning.
      now destruct (truthy_path vp), (truthy_path ap). }
  split.
  { rewrite Hrun. unfold trace_of at 1. cbn [snd].
    change (AWriteHead :: ?x) with ([AWriteHead] ++ x).
    change (ACleanup ?v ?w :: ?x) with ([ACleanup v w] ++ x).
    rewrite !file_cleanups_app, !file_cleanups_cleaning.
    rewrite (file_cleanups_none (trace_of a)), (file_cleanups_none (trace_of h)).
    - simpl. destruct vp as [[|x p]|], ap as [[|y q]|]; simpl; try reflexivity;
        intuition congruence.
    - unfold h. rewrite (handled_marks env url c _ _ a F).
      destruct c as [|[]|]; reflexivity.
    - rewrite Ht. destruct c as [|[]|]; reflexivity. }
  intros p Hp Hrm. now apply recorded_paths_gone.
Qed.

(** C7. A request whose URL is empty or missing (or any other falsy value)
    is rejected at once: nothing but the error progress event and the
    terminal error event is written, no stage method is entered, and the
    only progress event has the step [error]. *)
Theorem empty_url_rejected (env : Env) (url : jsval) (s : State) :
  truthy url = false ->
  let sid := sessionId_of env s in
  let t0 := startTime_of env s in
  let e := mkError (js "Video URL is required") in
  let t := trace_of (analyzeVideo env url s) in
  t = [AWriteHead;
       AWrite (Progress (error_progress env sid t0 e (session_state s)));
       AWrite (Error (errorResponse_of env sid t0 e (session_state s)));
       AEnd;
       ACleanup None None] /\
  calls t = [] /\
  (forall p, In (Progress p) (written t) -> pd_step p = error).
Proof.
  intros Hurl sid t0 e t.
  assert (Ht : t = [AWriteHead;
       AWrite (Progress (error_progress env sid t0 e (session_state s)));
       AWrite (Error (errorResponse_of env sid t0 e (session_state s)));
       AEnd;
       ACleanup None None]).
  { subst t. rewrite analyzeVideo_run.
    unfold attempt, try_block. rewrite Hurl. reflexivity. }
  rewrite Ht. repeat split.
  simpl. intros p [[= <-]|[[=]|[]]]. reflexivity.
Qed.

(** C5. When the parsed response lacks one of [hook], [cta], [usp], or has
    it as something other than a string, or as a string that is empty after
    trimming (which a string of white space only is), [analyzeContent]
    throws; whenever it returns, the three fields of what it returns are
    strings that are not empty after trimming. *)
Theorem analysis_fields_required (env : Env) (transcript : jstring) (s : State) :
  let rq := chat_request_of (gpt s) (createAnalysisPrompt transcript) in
  let o := analyzeContent env transcript s in
  (forall c v k,
     chat_create env rq = Ok c -> JSON_parse env (content c) = Ok v ->
     In k requiredFields -> field_defect v k ->
     exists e, res_of o = Throw e) /\
  (forall v k str,
     get_field v k = Ok (JStr str) -> forallb isWhiteSpace str = true ->
     field_defect v k) /\
  (forall a, res_of o = Ok a -> forall k, In k requiredFields -> field_present a k).
Proof.
  intros rq o. split; [|split].
  - intros c v k Hc Hv Hk Hd. subst o. rewrite analyzeContent_run.
    fold rq. rewrite Hc, Hv. unfold res_of. cbn [fst].
    destruct (validateAnalysisResponse_defect v k Hk Hd) as [e ->]. eauto.
  - intros v k str Hg Hb. apply field_blank with str; [exact Hg|].
    now apply trim_blank.
  - intros a Ha. apply analyzeContent_ok in Ha as (c & _ & _ & Hv).
    now apply validateAnalysisResponse_present.
Qed.

(** C6. [generateAlternativeAnalysis] sends its one request with the
    override temperature and leaves the client as it found it, whether the
    analysis returns or throws: model, token limit and temperature are
    those of before the call, and the request of a later [analyzeContent]
    carries the original temperature. *)
Theorem temperature_override_scoped (env : Env) (transcript : jstring)
    (temp : option Q) (s : State) :
  let t := match temp with Some x => x | None => 12 # 10 end in
  let o := generateAlternativeAnalysis env transcript temp s in
  state_of o = s /\
  temperature (gpt (state_of o)) = temperature (gpt s) /\
  model (gpt (state_of o)) = model (gpt s) /\
  maxTokens (gpt (state_of o)) = maxTokens (gpt s) /\
  chats (trace_of o) =
    [ {| rq_model := model (gpt s);
         rq_system := system_message;
         rq_user := createAnalysisPrompt transcript;
         rq_max_tokens := maxTokens (gpt s);
         rq_temperature := t;
         rq_response_format := js "json_object" |} ] /\
  (forall transcript',
     List.map rq_temperature
       (chats (trace_of (analyzeContent env transcript' (state_of o)))) =
     [temperature (gpt s)]).
Proof.
  intros t o.
  assert (Hrun : o =
    (res_of (analyzeContent env transcript
               (set_gpt {| model := model (gpt s); maxTokens := maxTokens (gpt s);
                           temperature := t |} s)),
     s,
     [ACall Analysis;
      AChat {| rq_model := model (gpt s);
               rq_system := system_message;
               rq_user := createAnalysisPrompt transcript;
               rq_max_tokens := maxTokens (gpt s);
               rq_temperature := t;
               rq_response_format := js "json_object" |}])).
  { subst o. unfold generateAlternativeAnalysis. fold t.
    unfold bind at 1 2, get, set_temperature, modify, try_finally.
    rewrite bind_run, analyzeContent_run. unfold ret, res_of, state_of, trace_of.
    destruct s as [d b [m mt tp] u k l].
    unfold set_gpt, chat_request_of.
    cbn [gpt model maxTokens temperature fst snd dir bucket uuids ticks locals app].
    destruct (chat_create env _) as [c|e]; [|reflexivity].
    destruct (JSON_parse env _) as [a|e]; [|reflexivity].
    destruct (validateAnalysisResponse a) as [[]|e]; reflexivity. }
  rewrite Hrun. unfold state_of, trace_of. cbn [fst snd].
  repeat split. intros transcript'. now rewrite analyzeContent_run.
Qed.

(** C8. [downloadVideo] runs yt-dlp once, asking for the format
    [best[ext=mp4]/best] and with [--no-playlist].  It throws when the tool
    fails, and when the tool succeeds but no entry of the temp directory
    starts with the identifier it generated.  When the tool succeeds and
    entries of the directory start with that identifier, it returns one
    path, that of the first of them; and whenever it returns, it returns
    the path of such an entry. *)
Theorem downloadVideo_outcomes (env : Env) (url : jsval) (s : State) :
  let videoId := uuid_nth env (uuids s) in
  let args := ytdlp_args url (path_join env (tempDir env) (videoId ++ js ".%(ext)s")) in
  let o := downloadVideo env url s in
  trace_of o = [ACall Download; AExec args] /\
  args = [url; JStr (js "--output");
          JStr (path_join env (tempDir env) (videoId ++ js ".%(ext)s"));
          JStr (js "--format"); JStr (js "best[ext=mp4]/best");
          JStr (js "--no-playlist")] /\
  (forall e d,
     ytdlp_exec env args (dir s) = (Throw e, d) ->
     res_of o = Throw (mkError (js "Failed to download video: " ++ message e))) /\
  (forall out d,
     ytdlp_exec env args (dir s) = (Ok out, d) ->
     (forall f, In f d -> startsWith (fst f) videoId = false) ->
     res_of o = Throw (mkError (js "Failed to download video: "
                                  ++ js "Downloaded file not found"))) /\
  (forall out pre f post,
     ytdlp_exec env args (dir s) = (Ok out, pre ++ f :: post) ->
     (forall g, In g pre -> startsWith (fst g) videoId = false) ->
     startsWith (fst f) videoId = true ->
     fst f <> [] ->
     res_of o = Ok (path_join env (tempDir env) (fst f)) /\
     dir (state_of o) = pre ++ f :: post) /\
  (forall p,
     res_of o = Ok p ->
     exists out d name,
       ytdlp_exec env args (dir s) = (Ok out, d) /\
       dir (state_of o) = d /\
       In name (List.map fst d) /\
       startsWith name videoId = true /\
       p = path_join env (tempDir env) name).
Proof.
  intros videoId args o. subst o. rewrite downloadVideo_run.
  fold videoId. fold args. unfold res_of, state_of, trace_of. cbn [fst snd dir].
  split; [reflexivity|]. split; [reflexivity|].
  split; [|split; [|split]].
  - intros e d ->. reflexivity.
  - intros out d -> Hnone. cbn [fst snd].
    unfold find_download.
    destruct (find _ _) as [name|] eqn:F; [|reflexivity].
    apply find_some in F as [Hin Hs].
    apply in_map_iff in Hin as (f & <- & Hf).
    rewrite (Hnone f Hf) in Hs. discriminate.
  - intros out pre f post -> Hpre Hf Hne. cbn [fst snd].
    split; [|reflexivity].
    unfold find_download.
    assert (F : find (fun x => startsWith x videoId)
                  (List.map fst (pre ++ f :: post)) = Some (fst f)).
    { clear Hne. induction pre as [|g pre IH]; cbn [List.map app find].
      - now rewrite Hf.
      - rewrite (Hpre g (or_introl eq_refl)). apply IH.
        intros x Hx. apply Hpre. now right. }
    rewrite F. destruct (fst f) as [|c name]; [congruence|reflexivity].
  - intros p. destruct (ytdlp_exec env args (dir s)) as [[out|e] d]; cbn [fst snd];
      [|discriminate].
    unfold find_download.
    destruct (find _ _) as [[|c name]|] eqn:F; try discriminate.
    intros [= <-]. apply find_some in F as [Hin Hs].
    exists out, d, (c :: name). auto.
Qed.

(** C9. [uploadToSupabase] reads the whole file and sends it in one upload
    named after the session identifier and the current time, with content
    type [video/mp4] and without permission to overwrite.  It throws when
    the file cannot be read, when the storage service rejects the request,
    and when an object of that name exists, which is then left as it was;
    otherwise the object is stored and its public URL returned. *)
Theorem uploadToSupabase_outcomes (env : Env) (vp sid : jstring) (s : State) :
  let fileName := sid ++ js "_" ++ of_Z (clock env (ticks s)) ++ js ".mp4" in
  let o := uploadToSupabase env vp sid s in
  (find (at_path env vp) (dir s) = None ->
     (exists e, res_of o = Throw e) /\ trace_of o = [ACall Upload] /\
     bucket (state_of o) = bucket s) /\
  (forall f,
     find (at_path env vp) (dir s) = Some f ->
     trace_of o =
       [ACall Upload;
        AStorageUpload (bucketName env) fileName (snd f) (js "video/mp4") false] /\
     (forall msg,
        storage_reject env fileName = Some msg ->
        res_of o = Throw (mkError (js "Supabase upload failed: " ++ msg)) /\
        bucket (state_of o) = bucket s) /\
     (forall old,
        storage_reject env fileName = None ->
        bucket s !! fileName = Some old ->
        (exists e, res_of o = Throw e) /\
        bucket (state_of o) = bucket s /\
        bucket (state_of o) !! fileName = Some old) /\
     (storage_reject env fileName = None ->
      bucket s !! fileName = None ->
      res_of o = Ok (publicUrl env (bucketName env) fileName) /\
      bucket (state_of o) = <[fileName := snd f]> (bucket s))).
Proof.
  intros fileName o. subst o. rewrite uploadToSupabase_run. fold fileName.
  split.
  - intros ->. unfold res_of, state_of, trace_of. simpl. eauto.
  - intros f ->. cbv zeta.
    destruct (storage_reject env fileName) as [msg|] eqn:R.
    + unfold res_of, state_of, trace_of. cbn [fst snd].
      repeat split; try discriminate; intros; congruence.
    + destruct (bucket s !! fileName) as [old|] eqn:B;
        unfold res_of, state_of, trace_of; cbn [fst snd].
      * repeat split; try discriminate; intros; try congruence; eauto.
        simpl. congruence.
      * repeat split; try discriminate; intros; congruence.
Qed.


(** C4.  A session fails at a stage when the method of that stage throws
    after the methods of the stages before it have returned.  Then no stage
    after it is entered; from the failure on no entry is added to the temp
    directory; each path the session has recorded (the video once the
    download has returned, the audio once the extraction has returned) has
    nothing left at it after cleanup, provided its removal does not fail;
    and when the removal of a path fails, the call still returns normally
    and the files at that path stay. *)
Theorem failed_session_cleanup (env : Env) (url : jsval) (s : State) (e : jserror)
    (Hthrow : res_of (attempt env url s) = Throw e) :
  let a := attempt env url s in
  let o := analyzeVideo env url s in
  exists c,
    c <> Completed /\
    (c = Rejected <-> truthy url = false) /\
    (truthy url = true ->
     pipeline env url (sessionId_of env s) c (session_state s)
       (res_of a) (state_of a) (trace_of a)) /\
    calls (trace_of o) = stages_run c /\
    calls (trace_of o) = calls (trace_of a) /\
    res_of o = Ok tt /\
    (forall f, In f (dir (state_of o)) -> In f (dir (state_of a))) /\
    (videoPath (locals (state_of a)) <> None <-> video_recorded c = true) /\
    (audioPath (locals (state_of a)) <> None <-> audio_recorded c = true) /\
    (forall p,
       videoPath (locals (state_of a)) = Some p \/
       audioPath (locals (state_of a)) = Some p ->
       fs_remove_error env p = None ->
       existsb (at_path env p) (dir (state_of o)) = false) /\
    (forall p f,
       fs_remove_error env p <> None ->
       In f (dir (state_of a)) -> at_path env p f = true ->
       In f (dir (state_of o))).
Proof.
  intros a o. fold a in Hthrow.
  destruct (attempt_staged env url s) as (c & F & P). fold a in F, P.
  pose proof (analyzeVideo_marks env url s c F) as Hm. fold o in Hm.
  pose proof F as (Hr & Hc & Ht & Hv & Ha & _).
  exists c.
  split; [|split; [|split; [|split; [|split; [|split; [|split; [|split;
    [|split; [|split]]]]]]]]].
  - intros ->. destruct Hc as [Hc _]. specialize (Hc eq_refl). congruence.
  - exact Hr.
  - exact P.
  - rewrite calls_marks, Hm. destruct c as [|[]|]; reflexivity.
  - rewrite !calls_marks, Hm, Ht. destruct c as [|[]|]; reflexivity.
  - apply analyzeVideo_ok.
  - intros f Hf. subst o. rewrite analyzeVideo_run in Hf.
    unfold state_of at 1 in Hf. cbn [fst snd] in Hf.
    apply cleaned_incl, cleaned_incl in Hf. now rewrite handled_dir in Hf.
  - destruct (videoPath _); [|destruct (video_recorded c)];
      intuition congruence.
  - destruct (audioPath _); [|destruct (audio_recorded c)];
      intuition congruence.
  - intros p Hp Hrm. now apply recorded_paths_gone.
  - intros p f Hrm Hin Hp. now apply failed_removal_keeps with p.
Qed.

(** * Concrete sessions *)

(** C4, counterexample.  In this session yt-dlp writes [id1.mp4], the
    upload succeeds, ffmpeg writes [id2.wav] and then fails, and no file can
    be removed: the session fails at extraction, its temp directory was
    empty before it, and after cleanup both files are still there. *)
Lemma failed_session_leaves_files :
  let o := analyzeVideo Demo.leaky Demo.url Demo.s0 in
  marks (trace_of o) = session_marks (FailedAt Extraction) /\
  dir Demo.s0 = [] /\
  List.map fst (dir (state_of o)) = [js "id1.mp4"; js "id2.wav"] /\
  ~ no_temp_file_left Demo.leaky Demo.url Demo.s0.
Proof.
  assert (E : dir (state_of (analyzeVideo Demo.leaky Demo.url Demo.s0)) =
              [(js "id1.mp4", Demo.video); (js "id2.wav", Demo.wav)])
    by (vm_compute; reflexivity).
  cbv zeta. split; [|split; [|split]].
  - vm_compute; reflexivity.
  - reflexivity.
  - now rewrite E.
  - unfold no_temp_file_left. rewrite E. intros H.
    exact (H _ (or_introl eq_refl)).
Qed.


Lemma failed_session_cleanup_witness :
  res_of (attempt Demo.ffail Demo.url Demo.s0) = Throw Demo.ffmpegError /\
  existsb (at_path Demo.ffail (js "./temp/id1.mp4"))
          (dir (state_of (analyzeVideo Demo.ffail Demo.url Demo.s0))) = false.
Proof.
  assert (H : res_of (attempt Demo.ffail Demo.url Demo.s0) = Throw Demo.ffmpegError)
    by (vm_compute; reflexivity).
  split; [exact H|].
  destruct (failed_session_cleanup Demo.ffail Demo.url Demo.s0 _ H)
    as (c & _ & _ & _ & _ & _ & _ & _ & _ & _ & Hgone & _).
  apply Hgone; [left; vm_compute; reflexivity | reflexivity].
Defined.

Lemma analysis_fields_required_witness :
  field_defect Demo.noCta (js "cta") /\
  exists e, res_of (analyzeContent Demo.incomplete (js "hello world") Demo.s0) = Throw e.
Proof.
  assert (D : field_defect Demo.noCta (js "cta"))
    by (apply field_missing; vm_compute; reflexivity).
  split; [exact D|].
  apply (proj1 (analysis_fields_required Demo.incomplete (js "hello world") Demo.s0)
           Demo.answer Demo.noCta (js "cta")).
  - reflexivity.
  - reflexivity.
  - right; left; reflexivity.
  - exact D.
Defined.

Lemma empty_url_rejected_witness :
  truthy (JStr []) = false /\
  calls (trace_of (analyzeVideo Demo.happy (JStr []) Demo.s0)) = [].
Proof.
  split; [reflexivity|].
  exact (proj1 (proj2 (empty_url_rejected Demo.happy (JStr []) Demo.s0 eq_refl))).
Defined.

Lemma downloadVideo_outcomes_witness :
  res_of (downloadVideo Demo.dlfail Demo.url Demo.s0) =
    Throw (mkError (js "Failed to download video: " ++ message Demo.unsupported)) /\
  res_of (downloadVideo Demo.happy Demo.url (session_state Demo.s0)) =
    Ok (js "./temp/id1.mp4").
Proof.
  split.
  - destruct (downloadVideo_outcomes Demo.dlfail Demo.url Demo.s0)
      as (_ & _ & Hfail & _).
    apply (Hfail Demo.unsupported []). reflexivity.
  - destruct (downloadVideo_outcomes Demo.happy Demo.url (session_state Demo.s0))
      as (_ & _ & _ & _ & Hfound & _).
    destruct (Hfound [] [] (js "id1.mp4", Demo.video) []) as [H _].
    + reflexivity.
    + intros g [].
    + vm_compute; reflexivity.
    + vm_compute; discriminate.
    + rewrite H. vm_compute; reflexivity.
Defined.

Lemma uploadToSupabase_outcomes_witness :
  let o := uploadToSupabase Demo.happy (js "./temp/clip.mp4") (js "sess") Demo.s_taken in
  (exists e, res_of o = Throw e) /\
  bucket (state_of o) !! js "sess_1000.mp4" = Some Demo.wav.
Proof.
  destruct (uploadToSupabase_outcomes Demo.happy (js "./temp/clip.mp4") (js "sess")
              Demo.s_taken) as [_ H].
  destruct (H (js "clip.mp4", Demo.video)) as (_ & _ & Htaken & _).
  { vm_compute; reflexivity. }
  destruct (Htaken Demo.wav) as (He & _ & Hold).
  { reflexivity. }
  { vm_compute; reflexivity. }
  split; [exact He|]. 
  assert (N : js "sess" ++ js "_" ++ of_Z (clock Demo.happy (ticks Demo.s_taken)) ++ js ".mp4"
              = js "sess_1000.mp4") by (vm_compute; reflexivity).
  rewrite N in Hold. exact Hold.
Defined.


(** * Further properties of the services *)

Lemma written_app (t u : list action) : written (t ++ u) = written t ++ written u.
Proof.
  induction t as [|a t IH]; simpl; [reflexivity|].
  destruct a; simpl; now rewrite IH.
Qed.

Lemma removals_app (t u : list action) : removals (t ++ u) = removals t ++ removals u.
Proof.
  induction t as [|a t IH]; simpl; [reflexivity|].
  destruct a; simpl; now rewrite IH.
Qed.

Lemma find_existsb {A} (f : A -> bool) (l : list A) (x : A) :
  find f l = Some x -> existsb f l = true.
Proof.
  intros H. apply find_some in H as [Hin Hf]. apply existsb_exists. eauto.
Qed.

(** X1. [transcribeAudio] looks for the audio file before anything else:
    when it is missing it throws [Audio file not found] without calling the
    transcription service; when it is there it sends the file once, with
    the model [whisper-1], and its outcome is the answer of the service,
    text or error, unchanged.  The state is left as it was. *)
Theorem transcribeAudio_checks_file_first (env : Env) (ap : jstring) (s : State) :
  let o := transcribeAudio env ap s in
  state_of o = s /\
  (existsb (at_path env ap) (dir s) = false ->
     res_of o = Throw (mkError (js "Audio file not found: " ++ ap)) /\
     trace_of o = [ACall Transcription]) /\
  (forall f,
     find (at_path env ap) (dir s) = Some f ->
     res_of o = whisper_create env (snd f) (js "whisper-1") /\
     trace_of o = [ACall Transcription; AWhisper (snd f) (js "whisper-1")]).
Proof.
  intros o. subst o. rewrite transcribeAudio_run. split; [|split].
  - destruct (existsb _ _); [|reflexivity]. now destruct (find _ _).
  - intros ->. split; reflexivity.
  - intros f Hf. rewrite (find_existsb _ _ _ Hf), Hf. split; reflexivity.
Qed.

(** X2. [extractAudio] looks for the video file first: when it is missing
    it throws [Video file not found] without running ffmpeg, drawing an
    identifier or touching the state.  Otherwise it runs ffmpeg once, from
    the video to a fresh [.wav] name in the temp directory; an ffmpeg error
    is thrown unchanged, and on success the path returned is the very path
    ffmpeg was given to write. *)
Theorem extractAudio_outcomes (env : Env) (vp : jstring) (s : State) :
  let o := extractAudio env vp s in
  let out := path_join env (tempDir env) (uuid_nth env (uuids s) ++ js ".wav") in
  (existsb (at_path env vp) (dir s) = false ->
     res_of o = Throw (mkError (js "Video file not found: " ++ vp)) /\
     trace_of o = [ACall Extraction] /\ state_of o = s) /\
  (existsb (at_path env vp) (dir s) = true ->
     trace_of o = [ACall Extraction; AFfmpeg vp out] /\
     uuids (state_of o) = S (uuids s) /\
     (forall e d,
        ffmpeg_save env vp out (dir s) = (Throw e, d) ->
        res_of o = Throw e /\ dir (state_of o) = d) /\
     (forall d,
        ffmpeg_save env vp out (dir s) = (Ok tt, d) ->
        res_of o = Ok out /\ dir (state_of o) = d)).
Proof.
  intros o out. subst o. rewrite extractAudio_run. fold out. split.
  - intros ->. repeat split.
  - intros ->. unfold res_of, state_of, trace_of. cbn [fst snd dir uuids].
    repeat split; intros; rewrite H; reflexivity.
Qed.

(** X3. The controller's [cleanup] never throws and touches nothing but the
    entries at its two paths: every other entry of the temp directory is
    still there afterwards, no entry is added, and the bucket, the GPT
    client and the session's variables are as before. *)
Theorem cleanup_spares_other_files (env : Env) (vp ap : option jstring) (s : State) :
  let o := cleanup env vp ap s in
  res_of o = Ok tt /\
  bucket (state_of o) = bucket s /\
  gpt (state_of o) = gpt s /\
  locals (state_of o) = locals s /\
  (forall f, In f (dir (state_of o)) -> In f (dir s)) /\
  (forall f,
     In f (dir s) ->
     (forall p, vp = Some p \/ ap = Some p -> at_path env p f = false) ->
     In f (dir (state_of o))).
Proof.
  intros o. subst o. rewrite cleanup_run. unfold res_of, state_of. cbn [fst snd].
  assert (K : forall p s', 
            bucket (after_file_cleanup env p s') = bucket s' /\
            gpt (after_file_cleanup env p s') = gpt s' /\
            locals (after_file_cleanup env p s') = locals s').
  { intros p s'. unfold after_file_cleanup. destruct (existsb _ _); [|auto].
    destruct (fs_remove_error env p); auto. }
  assert (C : forall (q : option jstring) s',
            bucket (cleaned env q s') = bucket s' /\
            gpt (cleaned env q s') = gpt s' /\
            locals (cleaned env q s') = locals s').
  { intros [[|c q]|] s'; simpl; auto. }
  assert (P : forall (q : option jstring) s' f,
            In f (dir s') ->
            (forall p, q = Some p -> at_path env p f = false) ->
            In f (dir (cleaned env q s'))).
  { intros [[|c q]|] s' f Hin Hq; simpl; auto.
    unfold after_file_cleanup. destruct (existsb _ _); [|auto].
    destruct (fs_remove_error env (c :: q)); [auto|]. simpl. unfold without.
    apply filter_In. split; [auto|]. now rewrite (Hq _ eq_refl). }
  destruct (C ap (cleaned env vp s)) as (B1 & G1 & L1).
  destruct (C vp s) as (B2 & G2 & L2).
  repeat split; try congruence.
  - intros f Hf. now apply cleaned_incl, cleaned_incl in Hf.
  - intros f Hin Hp. apply P; [apply P|]; auto.
Qed.

(** X4. When the removals of its two paths do not fail, a second [cleanup]
    with the same paths finds nothing to remove: it calls [fs.remove] for
    no path and leaves the state as the first one left it. *)
Theorem cleanup_twice (env : Env) (vp ap : option jstring) (s : State) :
  (forall p, vp = Some p \/ ap = Some p -> fs_remove_error env p = None) ->
  let s1 := state_of (cleanup env vp ap s) in
  state_of (cleanup env vp ap s1) = s1 /\
  removals (trace_of (cleanup env vp ap s1)) = [].
Proof.
  intros Hrm s1.
  assert (G : forall (q : option jstring) s',
            (forall c p, q = Some (c :: p) ->
               existsb (at_path env (c :: p)) (dir s') = false) ->
            cleaned env q s' = s' /\
            forall by_, removals (cleaning env by_ q s') = []).
  { intros [[|c q]|] s' H; simpl; auto.
    unfold after_file_cleanup, removal_trace. now rewrite (H _ _ eq_refl). }
  assert (E1 : s1 = cleaned env ap (cleaned env vp s)).
  { subst s1. now rewrite cleanup_run. }
  assert (Hv : forall c p, vp = Some (c :: p) ->
                 existsb (at_path env (c :: p)) (dir s1) = false).
  { intros c p Hvp. rewrite E1, Hvp. simpl cleaned at 2.
    assert (existsb (at_path env (c :: p))
              (dir (after_file_cleanup env (c :: p) s)) = false)
      by (apply after_file_cleanup_gone, Hrm; auto).
    destruct ap as [[|d q]|]; simpl cleaned; auto.
    now apply after_file_cleanup_keeps_gone. }
  assert (Ha : forall c p, ap = Some (c :: p) ->
                 existsb (at_path env (c :: p)) (dir s1) = false).
  { intros c p Hap. rewrite E1, Hap. simpl cleaned at 1.
    apply after_file_cleanup_gone, Hrm; auto. }
  destruct (G vp s1 Hv) as [Ev Rv].
  destruct (G ap s1 Ha) as [Ea Ra].
  rewrite cleanup_run. unfold state_of, trace_of. cbn [fst snd].
  rewrite Ev, Ea. split; [reflexivity|].
  simpl. now rewrite removals_app, Rv, Ra.
Qed.


Lemma completes_app (t u : list action) : completes (t ++ u) = completes t ++ completes u.
Proof. unfold completes. now rewrite written_app, flat_map_app. Qed.

Lemma completes_quiet (t : list action) : written t = [] -> completes t = [].
Proof. unfold completes. now intros ->. Qed.

Lemma wp_stage_quiet {A} (st : stage) (m : M A) (s : State)
    (Q : result A -> State -> list action -> Prop) :
  stage_frame st m ->
  (forall r s1 t1,
     m s = (r, s1, t1) -> written t1 = [] -> finals t1 = [] -> Q r s1 t1) ->
  wp m s Q.
Proof.
  intros Hf HQ. apply (wp_stage st m s Q Hf). intros r s1 t1 E Hm Hfin _.
  apply HQ; auto. apply written_none. now rewrite Hm.
Qed.

Section SessionEvents.

Variable env : Env.

Local Opaque downloadVideo uploadToSupabase extractAudio transcribeAudio
  analyzeContent.

Ltac send_ := apply wp_bind, wp_sendProgress.

Ltac quiet_ :=
  repeat first
    [ rewrite written_app
    | rewrite finals_app
    | rewrite completes_app
    | match goal with H : written _ = [] |- _ => rewrite H end
    | match goal with H : written ?t = [] |- _ => rewrite (completes_quiet t H) end
    | match goal with H : finals _ = [] |- _ => rewrite H end
    | progress simpl ].

Ltac events_ :=
  unfold session_events; split; [|split];
  [ quiet_; repeat (constructor; [split; [reflexivity|exact I || reflexivity]|]);
    try constructor
  | quiet_; try reflexivity
  | intros fr; quiet_; try contradiction ].

Lemma try_block_events (url : jsval) (sid : jstring) (t0 : Z) (s : State) :
  wp (try_block env url sid t0) s (fun _ _ t => session_events env url sid t0 t).
Proof.
  unfold try_block.
  destruct (truthy url) eqn:Hurl; cbn [negb].
  2:{ unfold wp, throw, trace_of; simpl. events_. }
  send_. send_. apply wp_bind.
  eapply wp_stage_quiet; [apply downloadVideo_frame|].
  intros [vp|e] s1 t1 E1 Hw1 Hf1; [|events_].
  apply wp_bind, wp_modify. send_. send_. apply wp_bind.
  eapply wp_stage_quiet; [apply uploadToSupabase_frame|].
  intros [u|e] s2 t2 E2 Hw2 Hf2; [|events_].
  apply wp_bind, wp_modify. send_. send_. apply wp_bind.
  eapply wp_stage_quiet; [apply extractAudio_frame|].
  intros [ap|e] s3 t3 E3 Hw3 Hf3; [|events_].
  apply wp_bind, wp_modify. send_. send_. apply wp_bind.
  eapply wp_stage_quiet; [apply transcribeAudio_frame|].
  intros [transcript|e] s4 t4 E4 Hw4 Hf4; [|events_].
  send_. send_. apply wp_bind.
  eapply wp_stage_quiet; [apply analyzeContent_frame|].
  intros [analysis_|e] s5 t5 E5 Hw5 Hf5; [|events_].
  send_. apply wp_bind, wp_Date_now. apply wp_bind, wp_Date_now.
  send_. apply wp_bind, wp_emit. apply wp_emit.
  events_.
  intros [<-|[]]. unfold envelope_of. simpl.
  repeat split.
  - eexists. reflexivity.
  - eexists _, _, u. split; [reflexivity|]. now rewrite E2.
  - eexists _, _. now rewrite E4.
Qed.

Lemma analyzeVideo_events (url : jsval) (s : State) :
  session_events env url (sessionId_of env s) (startTime_of env s)
    (trace_of (analyzeVideo env url s)).
Proof.
  pose proof (try_block_events url (sessionId_of env s) (startTime_of env s)
                (session_state s)) as H.
  unfold wp in H. fold (attempt env url s) in H.
  destruct H as (Hw & Hc & He).
  assert (Wc : forall by_ p s', written (cleaning env by_ p s') = []).
  { intros by_ p s'. apply written_none. rewrite marks_cleaning.
    now destruct (truthy_path p). }
  assert (Fc : forall by_ p s', finals (cleaning env by_ p s') = []).
  { intros by_ p s'. apply finals_none. rewrite marks_cleaning.
    now destruct (truthy_path p). }
  rewrite analyzeVideo_run. unfold trace_of at 1. cbn [snd].
  change (AWriteHead :: ?x) with ([AWriteHead] ++ x).
  change (ACleanup ?v ?w :: ?x) with ([ACleanup v w] ++ x).
  unfold session_events.
  rewrite !written_app, !finals_app, !completes_app, !Wc, !Fc.
  rewrite !(completes_quiet _ (Wc _ _ _)). simpl.
  rewrite !app_nil_r.
  unfold handled. destruct (res_of (attempt env url s)) as [[]|e].
  - simpl. rewrite !app_nil_r. auto.
  - rewrite catch_block_run. unfold trace_of at 2 4 6. cbn [snd]. simpl.
    split; [|split].
    + apply Forall_app. split; [exact Hw|].
      repeat (constructor; [split; [reflexivity|exact I || reflexivity]|]).
      constructor.
    + now rewrite !app_nil_r.
    + rewrite app_nil_r. exact He.
Qed.

End SessionEvents.

(** X5. Every event a session writes carries the identifier drawn for that
    session at its start: each progress event, the terminal event, and the
    result or error response inside the [complete] and [error] progress
    events. *)
Theorem events_carry_session_id (env : Env) (url : jsval) (s : State) :
  Forall (of_session (sessionId_of env s))
         (written (trace_of (analyzeVideo env url s))).
Proof. apply analyzeVideo_events. Qed.


(** X7. [analyzeContent] makes one attempt: whatever the outcome, it sends
    exactly one chat request, built from the client's model, token limit
    and temperature and asking for a JSON object, and it leaves the state
    as it was.  An error of the chat service and an error of [JSON.parse]
    are thrown unchanged. *)
Theorem analyzeContent_single_request (env : Env) (transcript : jstring) (s : State) :
  let rq := chat_request_of (gpt s) (createAnalysisPrompt transcript) in
  let o := analyzeContent env transcript s in
  state_of o = s /\
  trace_of o = [ACall Analysis; AChat rq] /\
  rq_response_format rq = js "json_object" /\
  (forall e, chat_create env rq = Throw e -> res_of o = Throw e) /\
  (forall c e,
     chat_create env rq = Ok c -> JSON_parse env (content c) = Throw e ->
     res_of o = Throw e).
Proof.
  intros rq o. subst o. rewrite analyzeContent_run. fold rq.
  unfold res_of, state_of, trace_of. cbn [fst snd].
  repeat split.
  - intros e ->. reflexivity.
  - intros c e -> ->. reflexivity.
Qed.

(** ** [setConfig] *)

Lemma configured_model (c : Config) (g : GPTService) :
  model (configured c g) =
  match cfg_model c with Some (x :: m) => x :: m | _ => model g end.
Proof.
  unfold configured.
  destruct (cfg_model c) as [[|x m]|], (cfg_maxTokens c) as [n|],
    (cfg_temperature c) as [t|]; simpl; try destruct (Z.eqb n 0); reflexivity.
Qed.

Lemma configured_maxTokens (c : Config) (g : GPTService) :
  maxTokens (configured c g) =
  match cfg_maxTokens c with
  | Some n => if Z.eqb n 0 then maxTokens g else n
  | None => maxTokens g
  end.
Proof.
  unfold configured.
  destruct (cfg_model c) as [[|x m]|], (cfg_maxTokens c) as [n|],
    (cfg_temperature c) as [t|]; simpl; try destruct (Z.eqb n 0); reflexivity.
Qed.

Lemma configured_temperature (c : Config) (g : GPTService) :
  temperature (configured c g) =
  match cfg_temperature c with Some t => t | None => temperature g end.
Proof.
  unfold configured.
  destruct (cfg_model c) as [[|x m]|], (cfg_maxTokens c) as [n|],
    (cfg_temperature c) as [t|]; simpl; try destruct (Z.eqb n 0); reflexivity.
Qed.

Lemma GPTService_ext (g h : GPTService) :
  model g = model h -> maxTokens g = maxTokens h -> temperature g = temperature h ->
  g = h.
Proof. destruct g, h; simpl; congruence. Qed.

(** X9. However many times [setConfig] is called and with whatever
    arguments, the client keeps a non-empty model name and a non-zero token
    limit when it started with them, as a fresh client does: an empty model
    and a zero limit are ignored.  A temperature that is given is always
    taken, zero included. *)
Theorem setConfig_keeps_client_usable (cs : list Config) (g : GPTService) :
  let g' := fold_left (fun h c => configured c h) cs g in
  (model g <> [] -> model g' <> []) /\
  (maxTokens g <> 0 -> maxTokens g' <> 0) /\
  model (fold_left (fun h c => configured c h) cs GPTService_new) <> [] /\
  maxTokens (fold_left (fun h c => configured c h) cs GPTService_new) <> 0 /\
  (forall c t, cfg_temperature c = Some t -> temperature (configured c g) = t).
Proof.
  assert (K : forall cs g,
            (model g <> [] -> model (fold_left (fun h c => configured c h) cs g) <> []) /\
            (maxTokens g <> 0 ->
             maxTokens (fold_left (fun h c => configured c h) cs g) <> 0)).
  { clear. induction cs as [|c cs IH]; intros g; simpl; [auto|].
    destruct (IH (configured c g)) as [IHm IHt]. split; intros H.
    - apply IHm. rewrite configured_model.
      destruct (cfg_model c) as [[|x m]|]; auto; discriminate.
    - apply IHt. rewrite configured_maxTokens.
      destruct (cfg_maxTokens c) as [n|]; auto.
      destruct (Z.eqb n 0) eqn:E; auto. now apply Z.eqb_neq. }
  intros g'. subst g'. destruct (K cs g) as [Km Kt].
  destruct (K cs GPTService_new) as [Nm Nt].
  split; [exact Km|]. split; [exact Kt|]. split; [|split].
  - apply Nm. vm_compute. discriminate.
  - apply Nt. discriminate.
  - intros c t H. now rewrite configured_temperature, H.
Qed.

(** X10. Two calls of [setConfig] in a row do what one call with the merged
    argument does, the later value winning where it is taken; in
    particular a call repeated changes nothing more. *)
Theorem setConfig_composes (c1 c2 : Config) (g : GPTService) :
  configured c2 (configured c1 g) = configured (then_config c1 c2) g /\
  configured c1 (configured c1 g) = configured c1 g.
Proof.
  split; apply GPTService_ext;
    rewrite ?configured_model, ?configured_maxTokens, ?configured_temperature;
    unfold then_config; simpl.
  - destruct (cfg_model c2) as [[|x m]|], (cfg_model c1) as [[|y k]|]; reflexivity.
  - destruct (cfg_maxTokens c2) as [n|], (cfg_maxTokens c1) as [k|]; try reflexivity;
      destruct (Z.eqb n 0) eqn:E; rewrite ?E; reflexivity.
  - destruct (cfg_temperature c2), (cfg_temperature c1); reflexivity.
  - destruct (cfg_model c1) as [[|y k]|]; reflexivity.
  - destruct (cfg_maxTokens c1) as [k|]; try reflexivity;
      destruct (Z.eqb k 0) eqn:E; rewrite ?E; reflexivity.
  - destruct (cfg_temperature c1); reflexivity.
Qed.

Lemma generateAlternativeAnalysis_run (env : Env) (transcript : jstring)
    (temp : option Q) (s : State) :
  let t := match temp with Some x => x | None => 12 # 10 end in
  generateAlternativeAnalysis env transcript temp s =
  (res_of (analyzeContent env transcript
             (set_gpt {| model := model (gpt s); maxTokens := maxTokens (gpt s);
                         temperature := t |} s)),
   s,
   [ACall Analysis;
    AChat {| rq_model := model (gpt s);
             rq_system := system_message;
             rq_user := createAnalysisPrompt transcript;
             rq_max_tokens := maxTokens (gpt s);
             rq_temperature := t;
             rq_response_format := js "json_object" |}]).
Proof.
  intros t. unfold generateAlternativeAnalysis. fold t.
  unfold bind at 1 2, get, set_temperature, modify, try_finally.
  rewrite bind_run, analyzeContent_run. unfold ret, res_of, state_of, trace_of.
  destruct s as [d b [m mt tp] u k l].
  unfold set_gpt, chat_request_of.
  cbn [gpt model maxTokens temperature fst snd dir bucket uuids ticks locals app].
  destruct (chat_create env _) as [c|e]; [|reflexivity].
  destruct (JSON_parse env _) as [a|e]; [|reflexivity].
  destruct (validateAnalysisResponse a) as [[]|e]; reflexivity.
Qed.

(** X11. After [setConfig], the request of [analyzeContent] carries the
    configured client: the fields the call has taken and the former values
    of the others.  And [generateAlternativeAnalysis] after [setConfig]
    gives the client back with the configured temperature, not with the
    one of before the configuration. *)
Theorem setConfig_then_requests (env : Env) (c : Config) (transcript : jstring)
    (temp : option Q) (s : State) :
  let g := configured c (gpt s) in
  chats (trace_of (bind (setConfig c) (fun _ => analyzeContent env transcript) s)) =
    [chat_request_of g (createAnalysisPrompt transcript)] /\
  gpt (state_of (bind (setConfig c)
                   (fun _ => generateAlternativeAnalysis env transcript temp) s)) = g.
Proof.
  intros g. split.
  - rewrite bind_run. unfold setConfig, modify. rewrite analyzeContent_run.
    reflexivity.
  - rewrite bind_run. unfold setConfig, modify.
    rewrite generateAlternativeAnalysis_run. reflexivity.
Qed.

(** ** Platform detection *)

Lemma startsWith_spec (s p : jstring) :
  startsWith s p = true <-> exists post, s = p ++ post.
Proof.
  revert s. induction p as [|c p IH]; intros s.
  - split; [intros _; now exists s|now destruct s].
  - destruct s as [|d s]; simpl.
    + split; [discriminate|]. intros [post H]. discriminate.
    + rewrite andb_true_iff, N.eqb_eq, IH. split.
      * intros [-> [post ->]]. now exists post.
      * intros [post [= -> ->]]. eauto.
Qed.

Section Matching.

Local Opaque startsWith.

Lemma includes_spec (s lit : jstring) :
  includes s lit = true <-> exists pre post, s = pre ++ lit ++ post.
Proof.
  induction s as [|c s IH]; simpl.
  - rewrite orb_false_r, startsWith_spec. split.
    + intros [post H]. now exists [], post.
    + intros (pre & post & H). destruct pre; [now exists post|discriminate].
  - rewrite orb_true_iff, startsWith_spec, IH. split.
    + intros [[post H]|(pre & post & ->)].
      * now exists [], post.
      * now exists (c :: pre), post.
    + intros (pre & post & H). destruct pre as [|d pre].
      * left. now exists post.
      * right. injection H as -> ->. now exists pre, post.
Qed.

Lemma dots_then_spec (lit s : jstring) :
  dots_then lit s = true <->
  exists mid post,
    s = mid ++ lit ++ post /\
    forallb (fun c => negb (isLineTerminator c)) mid = true.
Proof.
  induction s as [|c s IH]; simpl.
  - rewrite orb_false_r, startsWith_spec. split.
    + intros [post H]. now exists [], post.
    + intros (mid & post & H & _). destruct mid; [now exists post|discriminate].
  - rewrite orb_true_iff, startsWith_spec, andb_true_iff, IH. split.
    + intros [[post H]|[Hc (mid & post & -> & Hm)]].
      * now exists [], post.
      * exists (c :: mid), post. simpl. now rewrite Hc, Hm.
    + intros (mid & post & H & Hm). destruct mid as [|d mid].
      * left. now exists post.
      * right. injection H as -> ->. simpl in Hm.
        apply andb_true_iff in Hm as [Hd Hm]. split; [exact Hd|].
        now exists mid, post.
Qed.

Lemma skipn_prefix (a rest : jstring) : skipn (List.length a) (a ++ rest) = rest.
Proof. induction a as [|c a IH]; simpl; auto. Qed.

Lemma dots_here_spec (a b s : jstring) :
  startsWith s a && dots_then b (skipn (List.length a) s) = true <->
  exists mid post,
    s = a ++ mid ++ b ++ post /\
    forallb (fun c => negb (isLineTerminator c)) mid = true.
Proof.
  rewrite andb_true_iff, startsWith_spec. split.
  - intros [[rest ->] H]. rewrite skipn_prefix in H.
    apply dots_then_spec in H as (mid & post & -> & Hm). eauto.
  - intros (mid & post & -> & Hm). split; [eauto|].
    rewrite skipn_prefix. apply dots_then_spec. eauto.
Qed.

Lemma test_dots_spec (a b s : jstring) :
  test_dots a b s = true <->
  exists pre mid post,
    s = pre ++ a ++ mid ++ b ++ post /\
    forallb (fun c => negb (isLineTerminator c)) mid = true.
Proof.
  induction s as [|c s IH]; simpl test_dots.
  - rewrite orb_false_r, dots_here_spec. split.
    + intros (mid & post & H & Hm). now exists [], mid, post.
    + intros (pre & mid & post & H & Hm). destruct pre; [eauto|discriminate].
  - rewrite orb_true_iff, dots_here_spec, IH. split.
    + intros [(mid & post & H & Hm)|(pre & mid & post & -> & Hm)].
      * now exists [], mid, post.
      * now exists (c :: pre), mid, post.
    + intros (pre & mid & post & H & Hm). destruct pre as [|d pre].
      * left. eauto.
      * right. injection H as -> ->. eauto.
Qed.

End Matching.

Lemma includes_embed (pre s post lit : jstring) :
  includes s lit = true -> includes (pre ++ s ++ post) lit = true.
Proof.
  rewrite !includes_spec. intros (x & y & ->).
  exists (pre ++ x), (y ++ post). now rewrite <- !app_assoc.
Qed.

Lemma test_dots_embed (pre s post a b : jstring) :
  test_dots a b s = true -> test_dots a b (pre ++ s ++ post) = true.
Proof.
  rewrite !test_dots_spec. intros (x & mid & y & -> & Hm).
  exists (pre ++ x), mid, (y ++ post). split; [|exact Hm].
  now rewrite <- !app_assoc.
Qed.

Lemma includes_needle (needle x y s big : jstring) :
  includes s big = true -> big = x ++ needle ++ y -> includes s needle = true.
Proof.
  intros H ->. revert H. rewrite !includes_spec. intros (pre & post & ->).
  exists (pre ++ x), (y ++ post). now rewrite <- !app_assoc.
Qed.

Lemma test_dots_needle (needle x y s a b : jstring) :
  test_dots a b s = true -> a = x ++ needle ++ y -> includes s needle = true.
Proof.
  intros H ->. revert H. rewrite test_dots_spec, includes_spec.
  intros (pre & mid & post & -> & _).
  exists (pre ++ x), (y ++ mid ++ b ++ post). now rewrite <- !app_assoc.
Qed.

(** X12. The three patterns with [.*] are read as a regular expression
    reads them: [isTwitterUrl] holds exactly of the strings that have
    [twitter.com/] or [x.com/] somewhere and [/status/] somewhere after it
    with no line terminator in between, wherever in the string that is. *)
Theorem isTwitterUrl_spec (url : jstring) :
  isTwitterUrl url = true <->
  exists host pre mid post,
    (host = js "twitter.com/" \/ host = js "x.com/") /\
    url = pre ++ host ++ mid ++ js "/status/" ++ post /\
    forallb (fun c => negb (isLineTerminator c)) mid = true.
Proof.
  unfold isTwitterUrl. rewrite orb_true_iff, !test_dots_spec. split.
  - intros [(pre & mid & post & H)|(pre & mid & post & H)].
    + exists (js "twitter.com/"), pre, mid, post. tauto.
    + exists (js "x.com/"), pre, mid, post. tauto.
  - intros (host & pre & mid & post & [->| ->] & H); [left|right]; eauto.
Qed.

Lemma platforms_embed (pre url post : jstring) :
  (isYouTubeUrl url = true -> isYouTubeUrl (pre ++ url ++ post) = true) /\
  (isInstagramUrl url = true -> isInstagramUrl (pre ++ url ++ post) = true) /\
  (isTwitterUrl url = true -> isTwitterUrl (pre ++ url ++ post) = true) /\
  (isTikTokUrl url = true -> isTikTokUrl (pre ++ url ++ post) = true) /\
  (isFacebookUrl url = true -> isFacebookUrl (pre ++ url ++ post) = true) /\
  (isLinkedInUrl url = true -> isLinkedInUrl (pre ++ url ++ post) = true) /\
  (isSnapchatUrl url = true -> isSnapchatUrl (pre ++ url ++ post) = true).
Proof.
  unfold isYouTubeUrl, isInstagramUrl, isTwitterUrl, isTikTokUrl, isFacebookUrl,
    isLinkedInUrl, isSnapchatUrl.
  rewrite !orb_true_iff.
  repeat split; intros H;
    repeat match goal with H : _ \/ _ |- _ => destruct H as [H|H] end;
    auto 10 using includes_embed, test_dots_embed.
Qed.

(** X13. Detection looks for its patterns anywhere in the string, not in
    the host of a URL: text put before and after a string that is
    recognised leaves it recognised, and a string classified as YouTube
    stays YouTube whatever surrounds it, since that test comes first. *)
Theorem detectPlatform_anywhere (pre url post : jstring) :
  (detectPlatform url = YouTube -> detectPlatform (pre ++ url ++ post) = YouTube) /\
  (detectPlatform url <> Unknown -> detectPlatform (pre ++ url ++ post) <> Unknown).
Proof.
  destruct (platforms_embed pre url post) as (Y & I & T & K & F & L & S).
  unfold detectPlatform. split.
  - destruct (isYouTubeUrl url); [intros _; now rewrite Y|].
    repeat match goal with |- context [if ?b then _ else _] =>
      destruct b; try discriminate end.
  - destruct (isYouTubeUrl url); [rewrite Y by reflexivity; discriminate|].
    destruct (isInstagramUrl url);
      [rewrite I by reflexivity; destruct (isYouTubeUrl _); discriminate|].
    destruct (isTwitterUrl url);
      [rewrite T by reflexivity;
       destruct (isYouTubeUrl _), (isInstagramUrl _); discriminate|].
    destruct (isTikTokUrl url);
      [rewrite K by reflexivity;
       destruct (isYouTubeUrl _), (isInstagramUrl _), (isTwitterUrl _); discriminate|].
    destruct (isFacebookUrl url);
      [rewrite F by reflexivity;
       destruct (isYouTubeUrl _), (isInstagramUrl _), (isTwitterUrl _),
         (isTikTokUrl _); discriminate|].
    destruct (isLinkedInUrl url);
      [rewrite L by reflexivity;
       destruct (isYouTubeUrl _), (isInstagramUrl _), (isTwitterUrl _),
         (isTikTokUrl _), (isFacebookUrl _); discriminate|].
    destruct (isSnapchatUrl url);
      [rewrite S by reflexivity;
       destruct (isYouTubeUrl _), (isInstagramUrl _), (isTwitterUrl _),
         (isTikTokUrl _), (isFacebookUrl _), (isLinkedInUrl _); discriminate|].
    intros H. now elim H.
Qed.

Lemma backend_needles (url : jstring) :
  (isYouTubeUrl url = true ->
     includes url (js "youtube.com") || includes url (js "youtu.be") = true) /\
  (isInstagramUrl url = true -> includes url (js "instagram.com") = true) /\
  (isTwitterUrl url = true ->
     includes url (js "twitter.com") || includes url (js "x.com") = true) /\
  (isTikTokUrl url = true -> includes url (js "tiktok.com") = true) /\
  (isFacebookUrl url = true ->
     includes url (js "facebook.com") || includes url (js "fb.watch") = true) /\
  (isLinkedInUrl url = true -> includes url (js "linkedin.com") = true) /\
  (isSnapchatUrl url = true -> includes url (js "snapchat.com") = true).
Proof.
  unfold isYouTubeUrl, isInstagramUrl, isTwitterUrl, isTikTokUrl, isFacebookUrl,
    isLinkedInUrl, isSnapchatUrl.
  rewrite !orb_true_iff.
  repeat split; intros H;
    repeat match goal with H : _ \/ _ |- _ => destruct H as [H|H] end.
  - left. now apply (includes_needle (js "youtube.com") [] (js "/watch?v=")) in H.
  - right. now apply (includes_needle (js "youtu.be") [] (js "/")) in H.
  - left. now apply (includes_needle (js "youtube.com") [] (js "/embed/")) in H.
  - left. now apply (includes_needle (js "youtube.com") [] (js "/shorts/")) in H.
  - now apply (includes_needle (js "instagram.com") [] (js "/p/")) in H.
  - now apply (includes_needle (js "instagram.com") [] (js "/reel/")) in H.
  - now apply (includes_needle (js "instagram.com") [] (js "/tv/")) in H.
  - left. now apply (test_dots_needle (js "twitter.com") [] (js "/")) in H.
  - right. now apply (test_dots_needle (js "x.com") [] (js "/")) in H.
  - now apply (test_dots_needle (js "tiktok.com") [] (js "/@")) in H.
  - now apply (includes_needle (js "tiktok.com") (js "vm.") (js "/")) in H.
  - left. now apply (test_dots_needle (js "facebook.com") [] (js "/")) in H.
  - right. now apply (includes_needle (js "fb.watch") [] (js "/")) in H.
  - now apply (includes_needle (js "linkedin.com") [] (js "/posts/")) in H.
  - now apply (includes_needle (js "linkedin.com") [] (js "/feed/update/")) in H.
  - now apply (includes_needle (js "snapchat.com") [] (js "/spotlight/")) in H.
Qed.

(** X14. The page names a platform whenever the server does: a URL the
    server classifies as YouTube is YouTube on the page, and a URL the
    page calls Unknown is Unknown to the server. *)
Theorem frontend_recognises_more (url : jstring) :
  (detectPlatform url = YouTube -> Frontend.detectPlatform url = YouTube) /\
  (detectPlatform url <> Unknown -> Frontend.detectPlatform url <> Unknown) /\
  (Frontend.detectPlatform url = Unknown -> detectPlatform url = Unknown).
Proof.
  destruct (backend_needles url) as (Y & I & T & K & F & L & S).
  assert (A : detectPlatform url <> Unknown -> Frontend.detectPlatform url <> Unknown).
  { unfold detectPlatform, Frontend.detectPlatform.
    destruct (isYouTubeUrl url); [rewrite Y by reflexivity; discriminate|].
    destruct (isInstagramUrl url);
      [rewrite I by reflexivity; destruct (_ || _); discriminate|].
    destruct (isTwitterUrl url);
      [rewrite T by reflexivity;
       repeat match goal with |- context [if ?b then _ else _] =>
         destruct b; try discriminate end|].
    destruct (isTikTokUrl url);
      [rewrite K by reflexivity;
       repeat match goal with |- context [if ?b then _ else _] =>
         destruct b; try discriminate end|].
    destruct (isFacebookUrl url);
      [rewrite F by reflexivity;
       repeat match goal with |- context [if ?b then _ else _] =>
         destruct b; try discriminate end|].
    destruct (isLinkedInUrl url);
      [rewrite L by reflexivity;
       repeat match goal with |- context [if ?b then _ else _] =>
         destruct b; try discriminate end|].
    destruct (isSnapchatUrl url);
      [rewrite S by reflexivity;
       repeat match goal with |- context [if ?b then _ else _] =>
         destruct b; try discriminate end|].
    intros H. now elim H. }
  split; [|split; [exact A|]].
  - unfold detectPlatform, Frontend.detectPlatform.
    destruct (isYouTubeUrl url); [intros _; now rewrite Y|].
    repeat match goal with |- context [if ?b then _ else _] =>
      destruct b; try discriminate end.
  - intros H. destruct (detectPlatform url) eqn:E; try reflexivity;
      exfalso; apply A; congruence.
Qed.

(** ** Format checks *)

Lemma lowerAscii_dot (c : N) : lowerAscii c = dot <-> c = dot.
Proof.
  unfold lowerAscii, dot.
  destruct (65 <=? c)%N eqn:A, (c <=? 90)%N eqn:B; simpl; try tauto.
  apply N.leb_le in A. apply N.leb_le in B. split; lia.
Qed.

Lemma lastIndexOf_absent (c : N) (s : jstring) :
  forallb (fun x => negb (N.eqb x c)) s = true -> lastIndexOf c s = -1.
Proof.
  induction s as [|d s IH]; simpl; [reflexivity|].
  intros [Hd Hs]%andb_true_iff. rewrite (IH Hs). simpl.
  now destruct (N.eqb d c).
Qed.

Lemma lastIndexOf_last (c : N) (stem rest : jstring) :
  forallb (fun x => negb (N.eqb x c)) rest = true ->
  lastIndexOf c (stem ++ c :: rest) = Z.of_nat (List.length stem).
Proof.
  intros H. induction stem as [|d stem IH].
  - simpl. rewrite (lastIndexOf_absent c rest H). simpl. now rewrite N.eqb_refl.
  - change ((d :: stem) ++ c :: rest) with (d :: (stem ++ c :: rest)).
    cbn [lastIndexOf]. rewrite IH.
    destruct (Z.of_nat (List.length stem) >=? 0) eqn:E.
    + cbn [List.length]. lia.
    + rewrite Z.geb_leb in E. apply Z.leb_gt in E. lia.
Qed.

Lemma plain_extension_lowered (ext f : jstring) :
  List.map lowerAscii ext = f -> plain_extension f = true ->
  exists rest, ext = dot :: rest /\
    forallb (fun x => negb (N.eqb x dot)) rest = true.
Proof.
  intros <-. destruct ext as [|c rest]; simpl; [discriminate|].
  intros [Hc Hr]%andb_true_iff. apply N.eqb_eq in Hc.
  apply (proj1 (lowerAscii_dot c)) in Hc. subst c.
  exists rest. split; [reflexivity|].
  rewrite forallb_forall in *. intros x Hx.
  specialize (Hr (lowerAscii x) (in_map _ _ _ Hx)).
  apply negb_true_iff, N.eqb_neq in Hr. apply negb_true_iff, N.eqb_neq.
  intros E. apply Hr. now apply lowerAscii_dot.
Qed.

Lemma format_listed_In (formats : list jstring) (ext : jstring) :
  format_listed formats ext = true <-> In ext formats.
Proof.
  unfold format_listed. rewrite existsb_exists. unfold eqb. split.
  - intros (f & Hf & E). apply bool_decide_eq_true in E. now subst.
  - intros H. exists ext. split; [exact H|]. now apply bool_decide_eq_true.
Qed.

Section FormatFacts.

Variable toLowerCase : jstring -> jstring.

Hypothesis toLowerCase_ascii :
  forall s, forallb isAscii s = true -> toLowerCase s = List.map lowerAscii s.

(** The check against any list of plain extensions. *)
Lemma format_check (formats : list jstring) (path : jstring) :
  forallb plain_extension formats = true ->
  forallb isAscii path = true ->
  format_listed formats
    (substring_from (lastIndexOf dot path) (toLowerCase path)) = true <->
  exists stem ext, path = stem ++ ext /\ In (List.map lowerAscii ext) formats.
Proof.
  intros Hplain Hascii. rewrite (toLowerCase_ascii path Hascii), format_listed_In.
  unfold substring_from. split.
  - intros H.
    exists (firstn (Z.to_nat (Z.max 0 (lastIndexOf dot path))) path),
           (skipn (Z.to_nat (Z.max 0 (lastIndexOf dot path))) path).
    split; [now rewrite firstn_skipn|]. now rewrite <- skipn_map.
  - intros (stem & ext & -> & Hin).
    rewrite forallb_forall in Hplain.
    destruct (plain_extension_lowered ext _ eq_refl (Hplain _ Hin))
      as (rest & -> & Hrest).
    rewrite (lastIndexOf_last dot stem rest Hrest).
    rewrite Z.max_r by lia. rewrite Nat2Z.id.
    rewrite map_app.
    replace (List.length stem) with (List.length (List.map lowerAscii stem))
      by apply length_map.
    now rewrite skipn_prefix.
Qed.

(** X15. For a path of ASCII characters, [validateVideoFormat] answers
    [true] exactly when the path ends, whatever the case of its letters,
    with one of [.mp4 .avi .mov .mkv .webm .flv .wmv]; a path with no dot in
    it is refused. *)
Theorem validateVideoFormat_spec (path : jstring) :
  forallb isAscii path = true ->
  (validateVideoFormat toLowerCase path = true <->
   exists stem ext, path = stem ++ ext /\ In (List.map lowerAscii ext) videoFormats) /\
  (forallb (fun x => negb (N.eqb x dot)) path = true ->
   validateVideoFormat toLowerCase path = false).
Proof.
  intros Hascii.
  assert (Hplain : forallb plain_extension videoFormats = true)
    by (vm_compute; reflexivity).
  pose proof (format_check videoFormats path Hplain Hascii) as Hc.
  split; [exact Hc|].
  intros Hnodot. apply not_true_is_false. intros H.
  apply Hc in H as (stem & ext & -> & Hin).
  rewrite forallb_forall in Hplain.
  destruct (plain_extension_lowered ext _ eq_refl (Hplain _ Hin)) as (rest & -> & _).
  rewrite forallb_app in Hnodot. apply andb_true_iff in Hnodot as [_ Hd].
  cbn [forallb] in Hd. now rewrite N.eqb_refl in Hd.
Qed.

(** X16. For a path of ASCII characters, [validateAudioFormat] answers
    [true] exactly when the path ends, whatever the case of its letters,
    with one of the extensions that [getSupportedFormats] returns. *)
Theorem validateAudioFormat_spec (path : jstring) :
  forallb isAscii path = true ->
  (validateAudioFormat toLowerCase path = true <->
   exists stem ext,
     path = stem ++ ext /\ In (List.map lowerAscii ext) getSupportedFormats).
Proof.
  intros Hascii.
  assert (Hplain : forallb plain_extension audioFormats = true)
    by (vm_compute; reflexivity).
  exact (format_check audioFormats path Hplain Hascii).
Qed.

End FormatFacts.

(** ** The event stream *)

Lemma list_ind2 (P : jstring -> Prop) :
  P [] -> (forall c, P [c]) ->
  (forall c d r, P r -> P (d :: r) -> P (c :: d :: r)) ->
  forall s, P s.
Proof.
  intros H0 H1 H2 s.
  assert (H : P s /\ forall c, P (c :: s)).
  { induction s as [|d r [IH1 IH2]]; [auto|]. split; [apply IH2|].
    intros c. apply H2; auto. }
  apply H.
Qed.

Lemma split_blank_cons2 (c d : N) (r : jstring) :
  split_blank (c :: d :: r) =
  if N.eqb c 10 && N.eqb d 10 then [] :: split_blank r
  else cons_head c (split_blank (d :: r)).
Proof. reflexivity. Qed.

Lemma split_blank_nonempty (s : jstring) : split_blank s <> [].
Proof.
  induction s as [|c|c d r IH1 IH2] using list_ind2; try discriminate.
  rewrite split_blank_cons2. destruct (_ && _); [discriminate|].
  destruct (split_blank (d :: r)); discriminate.
Qed.

Lemma join_blank_cons (x : jstring) (l : list jstring) :
  l <> [] -> join_blank (x :: l) = x ++ [10; 10]%N ++ join_blank l.
Proof. destruct l; [congruence|reflexivity]. Qed.

Lemma join_cons_head (c : N) (l : list jstring) :
  l <> [] -> join_blank (cons_head c l) = c :: join_blank l.
Proof.
  destruct l as [|h [|k t]]; [congruence|reflexivity|reflexivity].
Qed.

Lemma join_split_blank (s : jstring) : join_blank (split_blank s) = s.
Proof.
  induction s as [|c|c d r IH1 IH2] using list_ind2; try reflexivity.
  rewrite split_blank_cons2. destruct (N.eqb c 10 && N.eqb d 10) eqn:E.
  - apply andb_true_iff in E as [->%N.eqb_eq ->%N.eqb_eq].
    rewrite join_blank_cons by apply split_blank_nonempty. now rewrite IH1.
  - rewrite join_cons_head by apply split_blank_nonempty. now rewrite IH2.
Qed.

Lemma split_blank_single (s h : jstring) : split_blank s = [h] -> h = s.
Proof.
  intros H. rewrite <- (join_split_blank s), H. reflexivity.
Qed.

Lemma split_blank_app (a b : jstring) :
  split_blank (a ++ b) =
  removelast (split_blank a) ++ split_blank (List.last (split_blank a) [] ++ b).
Proof.
  induction a as [|c|c d r IH1 IH2] using list_ind2; try reflexivity.
  change ((c :: d :: r) ++ b) with (c :: d :: (r ++ b)).
  rewrite !split_blank_cons2. destruct (N.eqb c 10 && N.eqb d 10) eqn:E.
  - rewrite IH1.
    destruct (split_blank r) as [|h t] eqn:Er;
      [now apply split_blank_nonempty in Er|]. reflexivity.
  - change (d :: r ++ b) with ((d :: r) ++ b). rewrite IH2.
    destruct (split_blank (d :: r)) as [|h [|k t]] eqn:Er.
    + now apply split_blank_nonempty in Er.
    + apply split_blank_single in Er. subst h.
      cbn [removelast List.last cons_head app].
      change ((c :: d :: r) ++ b) with (c :: d :: (r ++ b)).
      now rewrite split_blank_cons2, E.
    + reflexivity.
Qed.

Lemma last_split_blank (s : jstring) :
  split_blank (List.last (split_blank s) []) = [List.last (split_blank s) []].
Proof.
  induction s as [|c|c d r IH1 IH2] using list_ind2; try reflexivity.
  rewrite split_blank_cons2. destruct (N.eqb c 10 && N.eqb d 10) eqn:E.
  - destruct (split_blank r) as [|h t] eqn:Er;
      [now apply split_blank_nonempty in Er|]. exact IH1.
  - destruct (split_blank (d :: r)) as [|h [|k t]] eqn:Er.
    + now apply split_blank_nonempty in Er.
    + apply split_blank_single in Er. subst h.
      cbn [List.last cons_head]. rewrite split_blank_cons2, E.
      cbn [List.last] in IH2. now rewrite IH2.
    + exact IH2.
Qed.

Lemma removelast_app_nonempty {A} (x y : list A) :
  y <> [] -> removelast (x ++ y) = x ++ removelast y.
Proof. intros H. now apply removelast_app. Qed.

Lemma last_app_nonempty {A} (x y : list A) (d : A) :
  y <> [] -> List.last (x ++ y) d = List.last y d.
Proof.
  intros H. induction x as [|a x IH]; [reflexivity|].
  simpl. destruct (x ++ y) eqn:E; [|exact IH].
  apply app_eq_nil in E as [_ ->]. congruence.
Qed.

Lemma read_chunks_closed (buffer : jstring) (chunks : list (list Byte.byte)) :
  split_blank buffer = [buffer] ->
  read_chunks true buffer chunks =
  (List.map strip_data
     (removelast (split_blank (buffer ++ concat (List.map TextDecoder_decode chunks)))),
   List.last (split_blank (buffer ++ concat (List.map TextDecoder_decode chunks))) []).
Proof.
  revert buffer. induction chunks as [|value rest IH]; intros buffer Hb.
  - simpl. rewrite app_nil_r, Hb. reflexivity.
  - cbn [read_chunks concat List.map].
    rewrite (IH (List.last (split_blank (buffer ++ TextDecoder_decode value)) []))
      by apply last_split_blank.
    rewrite app_assoc,
      (split_blank_app (buffer ++ TextDecoder_decode value)
         (concat (List.map TextDecoder_decode rest))).
    rewrite removelast_app_nonempty by apply split_blank_nonempty.
    rewrite last_app_nonempty by apply split_blank_nonempty.
    now rewrite map_app.
Qed.

Lemma utf8_decode_ascii (bytes : list N) :
  forallb (fun b => b <? 128)%N bytes = true ->
  utf8_decode bytes 0 0 0 128 191 = bytes.
Proof.
  induction bytes as [|b rest IH]; [reflexivity|].
  cbn [forallb]. intros [Hb Hrest]%andb_true_iff.
  cbn [utf8_decode]. change (0 =? 0)%N with true. cbv iota.
  unfold lead_of. apply N.ltb_lt in Hb.
  assert (L : (b <=? 127)%N = true) by (apply N.leb_le; lia).
  rewrite L. f_equal. now apply IH.
Qed.

Lemma code_units_ascii (l : list N) :
  forallb (fun b => b <? 128)%N l = true -> flat_map code_units l = l.
Proof.
  induction l as [|c l IH]; [reflexivity|].
  cbn [forallb flat_map]. intros [Hc Hl]%andb_true_iff.
  unfold code_units at 1. apply N.ltb_lt in Hc.
  assert (L : (c <? 65536)%N = true) by (apply N.ltb_lt; lia).
  rewrite L. cbn [app]. f_equal. now apply IH.
Qed.

Lemma drop_bom_ascii (l : list N) :
  forallb (fun b => b <? 128)%N l = true -> drop_bom l = l.
Proof.
  destruct l as [|c l]; [reflexivity|].
  cbn [forallb]. intros [Hc _]%andb_true_iff. unfold drop_bom.
  apply N.ltb_lt in Hc.
  assert (L : (c =? 65279)%N = false) by (apply N.eqb_neq; lia).
  now rewrite L.
Qed.

(** Bytes of ASCII decode to themselves. *)
Lemma decode_ascii (value : buffer) :
  forallb isAsciiByte value = true ->
  TextDecoder_decode value = List.map Byte.to_N value.
Proof.
  intros H.
  assert (A : forallb (fun b => b <? 128)%N (List.map Byte.to_N value) = true).
  { induction value as [|b v IH]; [reflexivity|].
    cbn [forallb List.map] in *. apply andb_true_iff in H as [Hb Hv].
    unfold isAsciiByte in Hb. rewrite Hb. now apply IH. }
  unfold TextDecoder_decode.
  now rewrite utf8_decode_ascii, drop_bom_ascii, code_units_ascii.
Qed.

(** For bytes of ASCII, decoding chunk by chunk gives the whole text. *)
Lemma decode_chunks_ascii (chunks : list buffer) :
  forallb isAsciiByte (concat chunks) = true ->
  concat (List.map TextDecoder_decode chunks) = List.map Byte.to_N (concat chunks).
Proof.
  induction chunks as [|v rest IH]; [reflexivity|].
  cbn [concat List.map]. rewrite forallb_app. intros [Hv Hrest]%andb_true_iff.
  now rewrite map_app, decode_ascii, IH.
Qed.

(** X17. What the page's listener is handed is set by the chunks as they
    are decoded, each on its own: it is handed, once each and in order, the
    pieces of the decoded text that are followed by a blank line, without
    their [data: ] prefix, and the piece after the last blank line stays in
    the buffer and is never handed over; without a listener nothing is
    handed over.  For bytes of ASCII this does not depend on where the
    reader cuts the stream.  In general it does: a character whose bytes
    fall in two chunks arrives as replacement characters. *)
Theorem read_chunks_whole_text (chunks chunks' : list buffer) :
  let text := concat (List.map TextDecoder_decode chunks) in
  read_chunks true [] chunks =
    (List.map strip_data (removelast (split_blank text)),
     List.last (split_blank text) []) /\
  (forallb isAsciiByte (concat chunks) = true ->
   concat chunks = concat chunks' ->
   read_chunks true [] chunks = read_chunks true [] chunks') /\
  fst (read_chunks false [] chunks) = [] /\
  concat [[Byte.xc3]; [Byte.xa9; Byte.x0a; Byte.x0a]] =
    concat [[Byte.xc3; Byte.xa9; Byte.x0a; Byte.x0a]] /\
  read_chunks true [] [[Byte.xc3; Byte.xa9; Byte.x0a; Byte.x0a]] = ([[233%N]], []) /\
  read_chunks true [] [[Byte.xc3]; [Byte.xa9; Byte.x0a; Byte.x0a]] =
    ([[replacement; replacement]], []).
Proof.
  intros text. subst text. split; [|split; [|split]].
  - now rewrite read_chunks_closed.
  - intros Ha Hc. rewrite !read_chunks_closed by reflexivity. cbn [app].
    rewrite !decode_chunks_ascii; [now rewrite Hc| now rewrite <- Hc | exact Ha].
  - generalize (@nil N). induction chunks as [|v rest IH]; intros b; [reflexivity|].
    cbn [read_chunks].
    specialize (IH (List.last (split_blank (b ++ TextDecoder_decode v)) [])).
    destruct (read_chunks false _ rest). simpl in *. exact IH.
  - repeat split; vm_compute; reflexivity.
Qed.

Lemma split_blank_frame (x rest : jstring) :
  forallb (fun c => negb (N.eqb c 10)) x = true ->
  split_blank (x ++ [10; 10]%N ++ rest) = x :: split_blank rest.
Proof.
  induction x as [|c x IH]; intros H.
  - reflexivity.
  - simpl in H. apply andb_true_iff in H as [Hc Hx].
    apply negb_true_iff in Hc.
    change ((c :: x) ++ [10; 10]%N ++ rest) with (c :: (x ++ [10; 10]%N ++ rest)).
    specialize (IH Hx).
    destruct (x ++ [10; 10]%N ++ rest) as [|d r] eqn:E.
    + destruct x; discriminate.
    + rewrite split_blank_cons2, Hc. cbn [andb]. rewrite IH. reflexivity.
Qed.

Lemma strip_data_frame (p : jstring) : strip_data (js "data: " ++ p) = p.
Proof.
  unfold strip_data.
  assert (S : startsWith (js "data: " ++ p) (js "data: ") = true)
    by (apply startsWith_spec; eauto).
  rewrite S. change 6%nat with (List.length (js "data: ")).
  apply skipn_prefix.
Qed.

Lemma split_blank_frames (ps : list jstring) :
  Forall (fun p => forallb (fun c => negb (N.eqb c 10)) p = true) ps ->
  split_blank (concat (List.map sse_frame ps)) =
  List.map (fun p => js "data: " ++ p) ps ++ [[]].
Proof.
  induction 1 as [|p ps Hp Hps IH]; [reflexivity|].
  cbn [List.map concat]. unfold sse_frame at 1.
  rewrite <- !app_assoc, (app_assoc (js "data: ") p).
  rewrite split_blank_frame, IH; [reflexivity|].
  rewrite forallb_app, Hp. vm_compute. reflexivity.
Qed.

Lemma stream_text_ascii (stringify : event -> jstring) (l : list event) :
  (forall e, forallb (fun c => c <? 128)%N (stringify e) = true) ->
  forallb (fun c => c <? 128)%N
    (concat (List.map (fun e => sse_frame (stringify e)) l)) = true.
Proof.
  intros H. induction l as [|e l IH]; [reflexivity|].
  cbn [List.map concat]. unfold sse_frame at 1.
  rewrite !forallb_app, H, IH. vm_compute. reflexivity.
Qed.

Lemma to_N_ascii (bytes : buffer) :
  forallb (fun c => c <? 128)%N (List.map Byte.to_N bytes) = true ->
  forallb isAsciiByte bytes = true.
Proof.
  induction bytes as [|b v IH]; [reflexivity|].
  cbn [List.map forallb]. intros [Hb Hv]%andb_true_iff.
  unfold isAsciiByte at 1. rewrite Hb. now apply IH.
Qed.

(** X18. From the controller to the page, for events serialised in ASCII:
    when the serialiser of events writes ASCII characters only and no line
    feed, and the bytes the reader yields, cut into chunks in whatever
    way, are those of the text the session wrote, the listener is handed
    exactly the serialised events of the session, one message for each and
    in the order written, and nothing stays in the buffer. *)
Theorem stream_round_trip (env : Env) (url : jsval) (s : State)
    (stringify : event -> jstring) (chunks : list buffer) :
  (forall e, forallb (fun c => negb (N.eqb c 10)) (stringify e) = true) ->
  (forall e, forallb (fun c => c <? 128)%N (stringify e) = true) ->
  List.map Byte.to_N (concat chunks) =
    stream_text stringify (trace_of (analyzeVideo env url s)) ->
  read_chunks true [] chunks =
  (List.map stringify (written (trace_of (analyzeVideo env url s))), []).
Proof.
  intros Hs Ha Hc.
  assert (A : forallb isAsciiByte (concat chunks) = true).
  { apply to_N_ascii. rewrite Hc. unfold stream_text. now apply stream_text_ascii. }
  rewrite read_chunks_closed by reflexivity.
  cbn [app]. rewrite (decode_chunks_ascii chunks A), Hc. unfold stream_text.
  rewrite <- (map_map stringify sse_frame).
  rewrite split_blank_frames.
  - rewrite List.removelast_last, List.last_last, map_map.
    f_equal. rewrite <- (map_id (List.map stringify _)) at 2.
    apply map_ext. intros p. apply strip_data_frame.
  - apply List.Forall_forall. intros p Hp.
    apply in_map_iff in Hp as (e & <- & _). apply Hs.
Qed.

(** ** The page *)

(** X19. The page sends no request for an input that holds nothing but
    white space.  The URL it sends otherwise is the input trimmed, which is
    not empty, so the controller never rejects a request of the page for
    its URL: the session gets past validation. *)
Theorem page_sends_truthy_url (input : jstring) :
  (submit_url input = None <-> forallb isWhiteSpace input = true) /\
  (forall u,
     submit_url input = Some u ->
     u = JStr (trim input) /\ truthy u = true /\
     forall env s,
       exists c, c <> Rejected /\
         marks (trace_of (analyzeVideo env u s)) = session_marks c).
Proof.
  unfold submit_url. split.
  - rewrite <- trim_blank. destruct (trim input); split; congruence.
  - intros u H. destruct (trim input) as [|c t]; [discriminate|].
    injection H as <-. repeat split. intros env s.
    destruct (attempt_follows env (JStr (c :: t)) s) as [k F].
    exists k. split; [|now apply analyzeVideo_marks].
    destruct F as ([Hr _] & _). intros ->. now specialize (Hr eq_refl).
Qed.

(** X20. The page reads the lists [hooks], [ctas] or [CTAs], [usps] or
    [USPs] of the analysis and never [hook], [cta] or [usp]: whatever
    these three hold changes nothing of what the three lists are given,
    and an analysis without the five plural fields gets the
    "none generated" line in each of the three lists. *)
Theorem page_reads_plural_fields (m : gmap (list N) jsval) :
  (forall k x,
     In k requiredFields ->
     hooks_argument (JObj (<[k := x]> m)) = hooks_argument (JObj m) /\
     ctas_argument (JObj (<[k := x]> m)) = ctas_argument (JObj m) /\
     usps_argument (JObj (<[k := x]> m)) = usps_argument (JObj m)) /\
  (m !! js "hooks" = None ->
   shows_placeholder (hooks_argument (JObj m)) = true) /\
  (m !! js "ctas" = None -> m !! js "CTAs" = None ->
   shows_placeholder (ctas_argument (JObj m)) = true) /\
  (m !! js "usps" = None -> m !! js "USPs" = None ->
   shows_placeholder (usps_argument (JObj m)) = true).
Proof.
  split; [|split; [|split]].
  - intros k x Hk.
    assert (N : forall key, ~ In (js key) requiredFields ->
                prop (JObj (<[k := x]> m)) key = prop (JObj m) key).
    { intros key Hkey. unfold prop. rewrite lookup_insert_ne; [reflexivity|].
      intros ->. contradiction. }
    unfold hooks_argument, ctas_argument, usps_argument.
    rewrite !N; [auto| | | | |];
      (intros [H|[H|[H|[]]]]; vm_compute in H; discriminate).
  - intros H. unfold hooks_argument, prop. now rewrite H.
  - intros H1 H2. unfold ctas_argument, prop. now rewrite H1, H2.
  - intros H1 H2. unfold usps_argument, prop. now rewrite H1, H2.
Qed.

Lemma onmessage_mark (u : UI) (e : event) : onmessage u e = on_mark u (event_mark e).
Proof. now destruct e. Qed.

Lemma fold_onmessage (l : list event) (u : UI) :
  fold_left onmessage l u = fold_left on_mark (List.map event_mark l) u.
Proof.
  revert u. induction l as [|e l IH]; intros u; [reflexivity|].
  simpl. now rewrite IH, onmessage_mark.
Qed.

Lemma percentages_marks (l : list event) (u : UI) :
  percentages u l = percentages_of_marks u (List.map event_mark l).
Proof.
  revert u. induction l as [|e l IH]; intros u; [reflexivity|].
  simpl. now rewrite IH, onmessage_mark.
Qed.

Lemma removelast_map {A B} (f : A -> B) (l : list A) :
  removelast (List.map f l) = List.map f (removelast l).
Proof.
  induction l as [|a [|b l] IH]; try reflexivity.
  cbn [List.map removelast] in *. now rewrite IH.
Qed.

Lemma completed_course (env : Env) (url : jsval) (s : State) (c : course) :
  marks (trace_of (analyzeVideo env url s)) = session_marks c ->
  completed (trace_of (analyzeVideo env url s)) =
  match c with Completed => true | _ => false end.
Proof.
  intros Hm. unfold completed.
  pose proof (finals_marks (trace_of (analyzeVideo env url s))) as F.
  rewrite Hm in F.
  destruct (finals _), c as [|[]|]; try reflexivity; discriminate.
Qed.

(** X21. When the page has handled the events of a session, it has stopped
    loading and its bar is back at zero.  If the session completed, all six
    step indicators are on [done] and the result is shown.  If it failed,
    at whatever stage and also when the URL was refused, the five stage
    indicators are on [done] all the same and only [complete] is on
    [error]: the page does not show which stage failed. *)
Theorem page_after_session (env : Env) (url : jsval) (s : State) :
  let t := trace_of (analyzeVideo env url s) in
  let u := fold_left onmessage (written t) submitted in
  loading u = false /\
  percentage u = 0 /\
  result_shown u = completed t /\
  indicators u =
    [Some Done; Some Done; Some Done; Some Done; Some Done;
     Some (if completed t then Done else Failed)].
Proof.
  intros t u. subst u t.
  destruct (attempt_follows env url s) as [c F].
  pose proof (analyzeVideo_marks env url s c F) as Hm.
  rewrite (completed_course env url s c Hm).
  rewrite fold_onmessage, written_marks, Hm.
  destruct c as [|[]|]; vm_compute; auto.
Qed.

(** X22. While the events of a session arrive, the bar never moves back:
    from the 5 of the submission, the percentages shown after each
    progress event never decrease; only the terminal event takes the bar
    back to zero. *)
Theorem page_progress_never_decreases (env : Env) (url : jsval) (s : State) :
  let events := written (trace_of (analyzeVideo env url s)) in
  nondecreasing (5 :: percentages submitted (removelast events)) = true /\
  List.last (percentages submitted events) 5 = 0.
Proof.
  intros events. subst events.
  destruct (attempt_follows env url s) as [c F].
  pose proof (analyzeVideo_marks env url s c F) as Hm.
  rewrite !percentages_marks, <- removelast_map, written_marks, Hm.
  destruct c as [|[]|]; vm_compute; auto.
Qed.

(** * Concrete cases of the further properties *)

Lemma transcribeAudio_checks_file_first_witness :
  res_of (transcribeAudio Demo.happy (js "./temp/id2.wav") Demo.s0) =
  Throw (mkError (js "Audio file not found: " ++ js "./temp/id2.wav")).
Proof.
  destruct (transcribeAudio_checks_file_first Demo.happy (js "./temp/id2.wav") Demo.s0)
    as (_ & H & _).
  apply H. reflexivity.
Defined.

Lemma extractAudio_outcomes_witness :
  let o := extractAudio Demo.ffail (js "./temp/clip.mp4") Demo.s_taken in
  res_of o = Throw Demo.ffmpegError /\
  dir (state_of o) = [(js "clip.mp4", Demo.video); (js "id2.wav", Demo.wav)].
Proof.
  destruct (extractAudio_outcomes Demo.ffail (js "./temp/clip.mp4") Demo.s_taken)
    as [_ H].
  destruct H as (_ & _ & Hf & _); [vm_compute; reflexivity|].
  apply (Hf Demo.ffmpegError). vm_compute; reflexivity.
Defined.

Lemma cleanup_spares_other_files_witness :
  In (js "clip.mp4", Demo.video)
     (dir (state_of (cleanup Demo.happy (Some (js "./temp/id1.mp4")) None Demo.s_taken))).
Proof.
  destruct (cleanup_spares_other_files Demo.happy (Some (js "./temp/id1.mp4")) None
              Demo.s_taken) as (_ & _ & _ & _ & _ & H).
  apply H.
  - left. reflexivity.
  - intros p [E|E]; [|discriminate]. injection E as <-. vm_compute; reflexivity.
Defined.

Lemma cleanup_twice_witness :
  let vp := Some (js "./temp/clip.mp4") in
  let s1 := state_of (cleanup Demo.happy vp None Demo.s_taken) in
  state_of (cleanup Demo.happy vp None s1) = s1 /\
  removals (trace_of (cleanup Demo.happy vp None s1)) = [].
Proof.
  apply (cleanup_twice Demo.happy (Some (js "./temp/clip.mp4")) None Demo.s_taken).
  intros p _. reflexivity.
Defined.


Lemma analyzeContent_single_request_witness :
  res_of (analyzeContent Demo.limited (js "hello world") Demo.s0) =
  Throw Demo.rateLimit.
Proof.
  destruct (analyzeContent_single_request Demo.limited (js "hello world") Demo.s0)
    as (_ & _ & _ & H & _).
  apply H. reflexivity.
Defined.

Lemma setConfig_keeps_client_usable_witness :
  let c := {| cfg_model := Some []; cfg_maxTokens := Some 0; cfg_temperature := None |} in
  model (configured c GPTService_new) <> [] /\
  maxTokens (configured c GPTService_new) <> 0.
Proof.
  intros c.
  destruct (setConfig_keeps_client_usable [c] GPTService_new) as (Hm & Hn & _).
  split; [apply Hm | apply Hn]; vm_compute; discriminate.
Defined.

Lemma isTwitterUrl_spec_witness :
  isTwitterUrl (js "https://x.com/user/status/42") = true.
Proof.
  apply (proj2 (isTwitterUrl_spec (js "https://x.com/user/status/42"))).
  exists (js "x.com/"), (js "https://"), (js "user"), (js "42").
  split; [right; reflexivity|]. split; vm_compute; reflexivity.
Defined.

Lemma detectPlatform_anywhere_witness :
  detectPlatform (js "watch " ++ js "https://youtu.be/abc123" ++ js " tonight") = YouTube.
Proof.
  apply (proj1 (detectPlatform_anywhere (js "watch ") (js "https://youtu.be/abc123")
                  (js " tonight"))).
  vm_compute; reflexivity.
Defined.

Lemma frontend_recognises_more_witness :
  Frontend.detectPlatform (js "https://youtu.be/abc123") = YouTube.
Proof.
  apply (proj1 (frontend_recognises_more (js "https://youtu.be/abc123"))).
  vm_compute; reflexivity.
Defined.

Lemma validateVideoFormat_spec_witness :
  validateVideoFormat (List.map lowerAscii) (js "./temp/CLIP.MP4") = true.
Proof.
  apply (proj1 (validateVideoFormat_spec (List.map lowerAscii) (fun s _ => eq_refl)
                  (js "./temp/CLIP.MP4") ltac:(vm_compute; reflexivity))).
  exists (js "./temp/CLIP"), (js ".MP4").
  split; [vm_compute; reflexivity|]. left. vm_compute; reflexivity.
Defined.

Lemma validateAudioFormat_spec_witness :
  validateAudioFormat (List.map lowerAscii) (js "./temp/Talk.Final.WAV") = true.
Proof.
  apply (validateAudioFormat_spec (List.map lowerAscii) (fun s _ => eq_refl)
           (js "./temp/Talk.Final.WAV") ltac:(vm_compute; reflexivity)).
  exists (js "./temp/Talk.Final"), (js ".WAV").
  split; [vm_compute; reflexivity|]. do 5 right. left. vm_compute; reflexivity.
Defined.

Lemma read_chunks_whole_text_witness :
  read_chunks true [] [[Byte.x64; Byte.x0a]; [Byte.x0a; Byte.x61]] =
  read_chunks true [] [[Byte.x64; Byte.x0a; Byte.x0a; Byte.x61]].
Proof.
  apply (proj1 (proj2 (read_chunks_whole_text
                         [[Byte.x64; Byte.x0a]; [Byte.x0a; Byte.x61]]
                         [[Byte.x64; Byte.x0a; Byte.x0a; Byte.x61]]))).
  - reflexivity.
  - reflexivity.
Defined.

Lemma stream_round_trip_witness :
  let bytes := ascii_bytes (stream_text Demo.stringify
                 (trace_of (analyzeVideo Demo.happy Demo.url Demo.s0))) in
  read_chunks true [] [firstn 40 bytes; skipn 40 bytes] =
  (List.map Demo.stringify (written (trace_of (analyzeVideo Demo.happy Demo.url Demo.s0))),
   []).
Proof.
  apply (stream_round_trip Demo.happy Demo.url Demo.s0 Demo.stringify).
  - intros [[sid st msg ts d]| |]; [destruct st|..]; vm_compute; reflexivity.
  - intros [[sid st msg ts d]| |]; [destruct st|..]; vm_compute; reflexivity.
  - vm_compute; reflexivity.
Defined.

Lemma page_sends_truthy_url_witness :
  submit_url (js "  https://youtu.be/abc123 ") = Some Demo.url /\
  exists c, c <> Rejected /\
    marks (trace_of (analyzeVideo Demo.happy Demo.url Demo.s0)) = session_marks c.
Proof.
  assert (H : submit_url (js "  https://youtu.be/abc123 ") = Some Demo.url)
    by (vm_compute; reflexivity).
  split; [exact H|].
  destruct (proj2 (page_sends_truthy_url (js "  https://youtu.be/abc123 ")) Demo.url H)
    as (_ & _ & K).
  exact (K Demo.happy Demo.s0).
Defined.

Lemma page_reads_plural_fields_witness :
  shows_placeholder (hooks_argument Demo.goodAnalysis) = true.
Proof.
  apply (proj1 (proj2 (page_reads_plural_fields
           (<[js "hook" := JStr (js "Stop scrolling")]>
            (<[js "cta" := JStr (js "Subscribe")]>
             (<[js "usp" := JStr (js "Only here")]>
              (<[js "score" := JNum (9 # 1)]> ∅))))))).
  vm_compute; reflexivity.
Defined.
